(** * pdf-merger-service: the merge pipeline of [backend/server.js]

    A shallow embedding of the [/api/merge] request handler, of
    [imageToPdf], and of the multer configuration ([storage], [fileFilter]),
    together with the parts of the JavaScript runtime the handler relies on
    ([JSON.parse], [String.prototype.startsWith], [path.extname], the [||]
    operator on numbers and strings).

    Third-party libraries (pdf-lib, sharp, uuid) are not part of the
    repository; they enter as the fields of the record [Libs], and every
    theorem holds for all their behaviours.  One behaviour of pdf-lib is
    written out, because the output depends on it: [save] gives a document
    without pages one empty page before it writes the document. *)

From Stdlib Require Import Floats.PrimFloat Floats.FloatOps Floats.FloatAxioms Floats.SpecFloat.
From Stdlib Require Import Ascii String.
From Stdlib Require Import Uint63.
From stdpp Require Import gmap strings list pretty.

Local Open Scope string_scope.

(** ** JavaScript values *)

Module JS.

(** JavaScript strings are sequences of UTF-16 code units.  A Rocq [string]
    stands for one by encoding every code unit on its own (one byte below
    0x80, two below 0x800, three otherwise); this code is prefix-free, so
    [startsWith] on code units is [startsWith] on the encoding. *)

(** [s.startsWith(search)] *)
Fixpoint startsWith (s search : string) : bool :=
  match search with
  | EmptyString => true
  | String c search' =>
      match s with
      | EmptyString => false
      | String d s' => if Ascii.eqb c d then startsWith s' search' else false
      end
  end.

Definition lower_ascii (c : ascii) : ascii :=
  let n := nat_of_ascii c in
  if (65 <=? n)%nat && (n <=? 90)%nat then ascii_of_nat (n + 32) else c.

(** [s.toLowerCase()], on the ASCII letters (the only ones that can lower
    to the letters of [".pdf"] and [".png"]). *)
Fixpoint toLowerCase (s : string) : string :=
  match s with
  | EmptyString => EmptyString
  | String c s' => String (lower_ascii c) (toLowerCase s')
  end.

(** [s.substr(start, length)], for a start and a length that are not
    negative: at most [length] characters from [start] on. *)
Definition substr (s : string) (start length : nat) : string :=
  String.substring start length s.

(** Numbers are IEEE 754 doubles. *)
Definition number := float.

(** [ToNumber] of a property that may be [undefined]. *)
Definition ToNumber (o : option number) : number :=
  match o with
  | Some x => x
  | None => nan
  end.

(** [ToBoolean] of a number: [NaN], [+0] and [-0] are falsy. *)
Definition truthy (x : number) : bool :=
  negb (PrimFloat.is_nan x || PrimFloat.is_zero x).

(** [x || d] on numbers *)
Definition or_number (x d : number) : number :=
  if truthy x then x else d.

(** [s || d] on strings: the empty string is falsy. *)
Definition or_string (s d : string) : string :=
  match s with
  | EmptyString => d
  | _ => s
  end.

(** [o || d] for a string property that may be [undefined]. *)
Definition or_undefined (o : option string) (d : string) : string :=
  match o with
  | Some s => or_string s d
  | None => d
  end.

(** The values [JSON.parse] can return.  A number is kept as its lexeme. *)
#[warnings="-register-all"]
Inductive json : Type :=
  | JNull
  | JBool (b : bool)
  | JNum (lexeme : string)
  | JStr (s : string)
  | JArr (elems : list json)
  | JObj (members : list (string * json)).

(** An exception: the [message] of the thrown [Error]. *)
Inductive result (A : Type) : Type :=
  | Ok (a : A)
  | Throw (message : string).
Arguments Ok {A} a.
Arguments Throw {A} message.

(** Sequencing of results: the first exception leaves. *)
Definition bind_result {A B} (r : result A) (k : A -> result B) : result B :=
  match r with
  | Ok a => k a
  | Throw e => Throw e
  end.

Notation "'let?' x ':=' r 'in' k" := (bind_result r (fun x => k))
  (at level 10, x name, r at level 100, k at level 200).

(** *** Array methods

    The callback may throw: the elements are visited in order, and the
    first exception ends the call. *)

(** [array.map(f)] *)
Definition Array_map {A B} (f : A -> result B) : list A -> result (list B) :=
  fix go l :=
    match l with
    | [] => Ok []
    | x :: l' => let? y := f x in let? ys := go l' in Ok (y :: ys)
    end.

(** [array.find(p)]: the first element that [p] holds of, [None] for
    [undefined]; the elements after it are not visited. *)
Definition Array_find {A} (p : A -> result bool) : list A -> result (option A) :=
  fix go l :=
    match l with
    | [] => Ok None
    | x :: l' => let? b := p x in if b then Ok (Some x) else go l'
    end.

(** [array.some(p)] *)
Definition Array_some {A} (p : A -> result bool) : list A -> result bool :=
  fix go l :=
    match l with
    | [] => Ok false
    | x :: l' => let? b := p x in if b then Ok true else go l'
    end.

(** [array.filter(p)] *)
Definition Array_filter {A} (p : A -> result bool) : list A -> result (list A) :=
  fix go l :=
    match l with
    | [] => Ok []
    | x :: l' =>
        let? b := p x in
        let? rest := go l' in
        Ok (if b then x :: rest else rest)
    end.

(** *** [JSON.parse]: the JSON grammar of ECMA-404 *)

Definition is_ws (c : ascii) : bool :=
  let n := nat_of_ascii c in
  (n =? 32)%nat || (n =? 9)%nat || (n =? 10)%nat || (n =? 13)%nat.

Fixpoint skip_ws (s : string) : string :=
  match s with
  | String c s' => if is_ws c then skip_ws s' else s
  | EmptyString => s
  end.

Definition is_digit (c : ascii) : bool :=
  let n := nat_of_ascii c in (48 <=? n)%nat && (n <=? 57)%nat.

Definition hex_val (c : ascii) : option nat :=
  let n := nat_of_ascii c in
  if (48 <=? n)%nat && (n <=? 57)%nat then Some (n - 48)
  else if (65 <=? n)%nat && (n <=? 70)%nat then Some (n - 55)
  else if (97 <=? n)%nat && (n <=? 102)%nat then Some (n - 87)
  else None.

(** The bytes that stand for one UTF-16 code unit. *)
Definition encode_unit (n : nat) : string :=
  if (n <? 128)%nat then String (ascii_of_nat n) ""
  else if (n <? 2048)%nat then
    String (ascii_of_nat (192 + n / 64))
      (String (ascii_of_nat (128 + n mod 64)) "")
  else
    String (ascii_of_nat (224 + n / 4096))
      (String (ascii_of_nat (128 + (n / 64) mod 64))
         (String (ascii_of_nat (128 + n mod 64)) "")).

Definition simple_escape (c : ascii) : option ascii :=
  let n := nat_of_ascii c in
  if (n =? 34)%nat then Some c            (* quote *)
  else if (n =? 92)%nat then Some c       (* backslash *)
  else if (n =? 47)%nat then Some c       (* slash *)
  else if (n =? 98)%nat then Some (ascii_of_nat 8)
  else if (n =? 102)%nat then Some (ascii_of_nat 12)
  else if (n =? 110)%nat then Some (ascii_of_nat 10)
  else if (n =? 114)%nat then Some (ascii_of_nat 13)
  else if (n =? 116)%nat then Some (ascii_of_nat 9)
  else None.

(** The characters of a string literal, after its opening quote. *)
Fixpoint parse_chars (s : string) : option (string * string) :=
  match s with
  | EmptyString => None
  | String c s' =>
      let n := nat_of_ascii c in
      if (n =? 34)%nat then Some ("", s')
      else if (n <? 32)%nat then None
      else if (n =? 92)%nat then
        match s' with
        | String e s'' =>
            if (nat_of_ascii e =? 117)%nat then
              match s'' with
              | String h1 (String h2 (String h3 (String h4 rest))) =>
                  match hex_val h1, hex_val h2, hex_val h3, hex_val h4 with
                  | Some a, Some b, Some c', Some d =>
                      match parse_chars rest with
                      | Some (str, rest') =>
                          Some (encode_unit (a * 4096 + b * 256 + c' * 16 + d)
                                  ++ str, rest')
                      | None => None
                      end
                  | _, _, _, _ => None
                  end
              | _ => None
              end
            else
              match simple_escape e with
              | Some x =>
                  match parse_chars s'' with
                  | Some (str, rest') => Some (String x str, rest')
                  | None => None
                  end
              | None => None
              end
        | EmptyString => None
        end
      else
        match parse_chars s' with
        | Some (str, rest') => Some (String c str, rest')
        | None => None
        end
  end.

(** A maximal run of digits: the run and what follows it. *)
Fixpoint take_digits (s : string) : string * string :=
  match s with
  | String c s' =>
      if is_digit c then
        let '(ds, rest) := take_digits s' in (String c ds, rest)
      else ("", s)
  | EmptyString => ("", s)
  end.

(** At least one digit. *)
Definition digits1 (s : string) : option (string * string) :=
  match take_digits s with
  | (EmptyString, _) => None
  | (ds, rest) => Some (ds, rest)
  end.

Definition parse_int (s : string) : option (string * string) :=
  match s with
  | String c s' =>
      if (nat_of_ascii c =? 48)%nat then Some (String c "", s')
      else digits1 s
  | EmptyString => None
  end.

Definition parse_frac (s : string) : option (string * string) :=
  match s with
  | String c s' =>
      if (nat_of_ascii c =? 46)%nat then
        match digits1 s' with
        | Some (ds, rest) => Some (String c ds, rest)
        | None => None
        end
      else Some ("", s)
  | EmptyString => Some ("", s)
  end.

Definition parse_exp (s : string) : option (string * string) :=
  match s with
  | String c s' =>
      if (nat_of_ascii c =? 101)%nat || (nat_of_ascii c =? 69)%nat then
        let '(sign, s'') :=
          match s' with
          | String g t =>
              if (nat_of_ascii g =? 43)%nat || (nat_of_ascii g =? 45)%nat
              then (String g "", t) else ("", s')
          | EmptyString => ("", s')
          end in
        match digits1 s'' with
        | Some (ds, rest) => Some (String c (sign ++ ds), rest)
        | None => None
        end
      else Some ("", s)
  | EmptyString => Some ("", s)
  end.

(** A number: its lexeme and what follows it. *)
Definition parse_number (s : string) : option (string * string) :=
  let '(sign, s1) :=
    match s with
    | String c t => if (nat_of_ascii c =? 45)%nat then (String c "", t) else ("", s)
    | EmptyString => ("", s)
    end in
  match parse_int s1 with
  | Some (i, s2) =>
      match parse_frac s2 with
      | Some (f, s3) =>
          match parse_exp s3 with
          | Some (e, s4) => Some (sign ++ i ++ f ++ e, s4)
          | None => None
          end
      | None => None
      end
  | None => None
  end.

(** [lit] at the head of [s]: what follows it. *)
Definition expect (lit s : string) : option string :=
  if startsWith s lit
  then Some (String.substring (String.length lit) (String.length s - String.length lit) s)
  else None.

Section Containers.
(** The value parser one nesting level down. *)
Variable value : string -> option (json * string).

(** The elements of an array after the first, up to the closing bracket;
    [n] bounds their number. *)
Fixpoint parse_elems (n : nat) (s : string) : option (list json * string) :=
  match n with
  | O => None
  | S n' =>
      match skip_ws s with
      | String c rest =>
          if (nat_of_ascii c =? 93)%nat then Some ([], rest)
          else if (nat_of_ascii c =? 44)%nat then
            match value rest with
            | Some (v, rest') =>
                match parse_elems n' rest' with
                | Some (vs, rest'') => Some (v :: vs, rest'')
                | None => None
                end
            | None => None
            end
          else None
      | EmptyString => None
      end
  end.

(** One [string : value] member. *)
Definition parse_member (s : string) : option ((string * json) * string) :=
  match skip_ws s with
  | String q rest =>
      if (nat_of_ascii q =? 34)%nat then
        match parse_chars rest with
        | Some (k, rest1) =>
            match skip_ws rest1 with
            | String c rest2 =>
                if (nat_of_ascii c =? 58)%nat then
                  match value rest2 with
                  | Some (v, rest3) => Some ((k, v), rest3)
                  | None => None
                  end
                else None
            | EmptyString => None
            end
        | None => None
        end
      else None
  | EmptyString => None
  end.

(** The members of an object after the first, up to the closing brace. *)
Fixpoint parse_members (n : nat) (s : string)
  : option (list (string * json) * string) :=
  match n with
  | O => None
  | S n' =>
      match skip_ws s with
      | String c rest =>
          if (nat_of_ascii c =? 125)%nat then Some ([], rest)
          else if (nat_of_ascii c =? 44)%nat then
            match parse_member rest with
            | Some (m, rest') =>
                match parse_members n' rest' with
                | Some (ms, rest'') => Some (m :: ms, rest'')
                | None => None
                end
            | None => None
            end
          else None
      | EmptyString => None
      end
  end.
End Containers.

(** A JSON value with surrounding white space allowed before it; [fuel]
    bounds the nesting depth. *)
Fixpoint parse_value (fuel : nat) (s : string) : option (json * string) :=
  match fuel with
  | O => None
  | S fuel' =>
      let s0 := skip_ws s in
      match s0 with
      | EmptyString => None
      | String c rest =>
          let n := nat_of_ascii c in
          if (n =? 91)%nat then                       (* array *)
            match skip_ws rest with
            | String c1 rest1 =>
                if (nat_of_ascii c1 =? 93)%nat then Some (JArr [], rest1)
                else
                  match parse_value fuel' rest with
                  | Some (v, rest2) =>
                      match parse_elems (parse_value fuel') (String.length rest2) rest2 with
                      | Some (vs, rest3) => Some (JArr (v :: vs), rest3)
                      | None => None
                      end
                  | None => None
                  end
            | EmptyString => None
            end
          else if (n =? 123)%nat then                 (* object *)
            match skip_ws rest with
            | String c1 rest1 =>
                if (nat_of_ascii c1 =? 125)%nat then Some (JObj [], rest1)
                else
                  match parse_member (parse_value fuel') rest with
                  | Some (m, rest2) =>
                      match parse_members (parse_value fuel') (String.length rest2) rest2 with
                      | Some (ms, rest3) => Some (JObj (m :: ms), rest3)
                      | None => None
                      end
                  | None => None
                  end
            | EmptyString => None
            end
          else if (n =? 34)%nat then                  (* string *)
            match parse_chars rest with
            | Some (str, rest1) => Some (JStr str, rest1)
            | None => None
            end
          else if (n =? 116)%nat then
            match expect "true" s0 with
            | Some rest1 => Some (JBool true, rest1)
            | None => None
            end
          else if (n =? 102)%nat then
            match expect "false" s0 with
            | Some rest1 => Some (JBool false, rest1)
            | None => None
            end
          else if (n =? 110)%nat then
            match expect "null" s0 with
            | Some rest1 => Some (JNull, rest1)
            | None => None
            end
          else
            match parse_number s0 with
            | Some (lx, rest1) => Some (JNum lx, rest1)
            | None => None
            end
      end
  end.

(** [JSON.parse(text)]: the value, or a thrown [SyntaxError] (whose message
    text is the engine's; only its being thrown matters here). *)
Definition JSON_parse (text : string) : result json :=
  match parse_value (S (String.length text)) text with
  | Some (v, rest) =>
      match skip_ws rest with
      | EmptyString => Ok v
      | _ => Throw "Unexpected non-whitespace character after JSON"
      end
  | None => Throw "Unexpected token in JSON"
  end.

End JS.
Export JS.

(** ** [path] (POSIX) *)

Module path.

Definition SLASH : ascii := "/"%char.
Definition DOT : ascii := "."%char.

(** The loop state of Node's [path.extname]; [None] stands for [-1]. *)
Record ext_state := {
  startDot : option nat;
  startPart : nat;
  end_ : option nat;
  matchedSlash : bool;
  preDotState : Z;
  stopped : bool
}.

Definition ext_init : ext_state :=
  {| startDot := None; startPart := 0; end_ := None;
     matchedSlash := true; preDotState := 0; stopped := false |}.

(** One iteration of the scan, at index [i] holding [code]. *)
Definition ext_step (i : nat) (code : ascii) (st : ext_state) : ext_state :=
  if stopped st then st else
  if Ascii.eqb code SLASH then
    if negb (matchedSlash st)
    then {| startDot := startDot st; startPart := i + 1; end_ := end_ st;
            matchedSlash := matchedSlash st; preDotState := preDotState st;
            stopped := true |}
    else st
  else
    let st1 :=
      match end_ st with
      | None =>
          {| startDot := startDot st; startPart := startPart st;
             end_ := Some (i + 1); matchedSlash := false;
             preDotState := preDotState st; stopped := false |}
      | Some _ => st
      end in
    if Ascii.eqb code DOT then
      match startDot st1 with
      | None =>
          {| startDot := Some i; startPart := startPart st1; end_ := end_ st1;
             matchedSlash := matchedSlash st1; preDotState := preDotState st1;
             stopped := false |}
      | Some _ =>
          {| startDot := startDot st1; startPart := startPart st1;
             end_ := end_ st1; matchedSlash := matchedSlash st1;
             preDotState := 1; stopped := false |}
      end
    else
      match startDot st1 with
      | Some _ =>
          {| startDot := startDot st1; startPart := startPart st1;
             end_ := end_ st1; matchedSlash := matchedSlash st1;
             preDotState := (-1); stopped := false |}
      | None => st1
      end.

(** The scan from the last character down to the first: the characters
    are given first to last, the index of the head is [i]. *)
Fixpoint ext_scan (i : nat) (s : string) (st : ext_state) : ext_state :=
  match s with
  | EmptyString => st
  | String c s' => ext_step i c (ext_scan (S i) s' st)
  end.

(** [path.extname(p)] *)
Definition extname (p : string) : string :=
  let st := ext_scan 0 p ext_init in
  match startDot st, end_ st with
  | Some sd, Some e =>
      if (preDotState st =? 0)%Z
         || ((preDotState st =? 1)%Z && (sd =? e - 1)%nat
             && (sd =? startPart st + 1)%nat)
      then ""
      else String.substring sd (e - sd) p
  | _, _ => ""
  end.

(** [path.join(dir, name)] for a normalized [dir] and a single segment. *)
Definition join (dir name : string) : string := dir ++ "/" ++ name.

End path.

(** ** PDF documents, as pdf-lib presents them *)

Definition bytes := list Byte.byte.

Inductive codec := PNG | JPG.

(** An image embedded in a document. *)
Record PDFImage := { image_codec : codec; image_data : bytes }.

(** What a page shows: images drawn by [drawImage], or the content stream
    a parsed page came with. *)
Inductive PageOp :=
  | DrawImage (image : PDFImage) (x y width height : number)
  | Content (stream : bytes).

Record PDFPage := {
  page_width : number;
  page_height : number;
  page_ops : list PageOp
}.

(** A document: its pages in order, and the creation date that
    [PDFDocument.create] stamps into its metadata. *)
Record PDFDocument := {
  creationDate : nat;
  pages : list PDFPage
}.

(** [doc.addPage(page)] *)
Definition addPage (doc : PDFDocument) (page : PDFPage) : PDFDocument :=
  {| creationDate := creationDate doc; pages := pages doc ++ [page] |}.

(** [ps.forEach(page => doc.addPage(page))] *)
Definition addPages (doc : PDFDocument) (ps : list PDFPage) : PDFDocument :=
  foldl addPage doc ps.

(** [page.drawImage(image, { x, y, width, height })] *)
Definition drawImage (page : PDFPage) (image : PDFImage)
    (x y width height : number) : PDFPage :=
  {| page_width := page_width page; page_height := page_height page;
     page_ops := page_ops page ++ [DrawImage image x y width height] |}.

(** What [sharp(buffer).metadata()] reports; [density] is absent when the
    image carries no resolution. *)
Record Metadata := {
  width : number;
  height : number;
  density : option number
}.

(** The third-party libraries and the deployment: what pdf-lib and sharp
    make of a byte string, how pdf-lib writes a document out, the
    identifiers uuid draws, how the runtime prints a number, and the
    directory the server runs from. *)
Record Libs := {
  PDFDocument_load : bytes -> result PDFDocument;
  serializeToBuffer : PDFDocument -> bytes;
  embedPng : bytes -> result PDFImage;
  embedJpg : bytes -> result PDFImage;
  sharp_metadata : bytes -> result Metadata;
  uuidv4 : nat -> string;
  Number_toString : string -> string;
  dirname : string
}.

(** The page [doc.addPage()] adds when it is given no size: an empty A4
    page. *)
#[warnings="-inexact-float"]
Definition default_page : PDFPage :=
  {| page_width := 595.28%float; page_height := 841.89%float; page_ops := [] |}.

(** What [doc.save()] of pdf-lib does before it writes: a document
    without pages gets one empty page (the option [addDefaultPage], which
    the server leaves on). *)
Definition prepareForSave (doc : PDFDocument) : PDFDocument :=
  match pages doc with
  | [] => addPage doc default_page
  | _ :: _ => doc
  end.

(** [doc.save()]: the document made ready, then written out. *)
Definition PDFDocument_save (L : Libs) (doc : PDFDocument) : bytes :=
  serializeToBuffer L (prepareForSave doc).

(** ** The request and its files *)

(** A file as multer hands it to the handler. *)
Record File := {
  originalname : string;
  mimetype : string;
  size : N;
  filename : string;
  file_path : string
}.

(** A part of the multipart body, before storage. *)
Record Part := {
  part_name : string;
  part_type : string;
  part_data : bytes
}.

(** [req]: the [order] field of the body and [req.files], either of which
    may be [undefined].  The body itself is an object, as multer and
    [express.json()] leave it, so that [const { order } = req.body] does
    not throw. *)
Record Request := {
  body_order : option string;
  req_files : option (list File)
}.

Inductive Response :=
  | Json (status : nat) (error : string)
  | Download (file : string) (name : string).

(** ** The world the handler runs in *)

Inductive Event :=
  | FsRead (p : string)
  | FsWrite (p : string)
  | FsRemove (p : string)
  | ConsoleError (msg : string)
  | PdfCreate
  | PdfLoad
  | PdfSave
  | PdfEmbedPng
  | PdfEmbedJpg
  | SharpMetadata
  | SetTimeout (ms : N).

(** The file system, the paths the process may not modify (their removal
    and writing fail), the calls made so far (oldest first), the pending
    timers, the clock, the number of identifiers drawn, and whether the
    client takes the download to its end. *)
Record World := {
  fs : gmap string bytes;
  locked : gset string;
  trace : list Event;
  timers : list (N * string);
  now : nat;
  drawn : nat;
  download_err : option string
}.

Definition set_fs (f : gmap string bytes -> gmap string bytes) (w : World) : World :=
  {| fs := f (fs w); locked := locked w; trace := trace w; timers := timers w;
     now := now w; drawn := drawn w; download_err := download_err w |}.

Definition emit (e : Event) (w : World) : World :=
  {| fs := fs w; locked := locked w; trace := trace w ++ [e]; timers := timers w;
     now := now w; drawn := drawn w; download_err := download_err w |}.

Definition add_timer (t : N * string) (w : World) : World :=
  {| fs := fs w; locked := locked w; trace := trace w; timers := timers w ++ [t];
     now := now w; drawn := drawn w; download_err := download_err w |}.

Definition clear_timers (w : World) : World :=
  {| fs := fs w; locked := locked w; trace := trace w; timers := [];
     now := now w; drawn := drawn w; download_err := download_err w |}.

Definition draw (w : World) : World :=
  {| fs := fs w; locked := locked w; trace := trace w; timers := timers w;
     now := now w; drawn := S (drawn w); download_err := download_err w |}.

(** The world after the calls [evs], made in that order. *)
Definition emit_all (evs : list Event) (w : World) : World :=
  {| fs := fs w; locked := locked w; trace := trace w ++ evs; timers := timers w;
     now := now w; drawn := drawn w; download_err := download_err w |}.

(** The paths [fs.remove] was called on, in call order. *)
Definition removals (evs : list Event) : list string :=
  omap (fun e => match e with FsRemove p => Some p | _ => None end) evs.

(** The paths [fs.writeFile] was called on, in call order. *)
Definition writes (evs : list Event) : list string :=
  omap (fun e => match e with FsWrite p => Some p | _ => None end) evs.

(** ** Computations: state and exceptions *)

Definition M (A : Type) : Type := World -> result A * World.

Definition ret {A} (a : A) : M A := fun w => (Ok a, w).

Definition bind {A B} (m : M A) (k : A -> M B) : M B :=
  fun w =>
    match m w with
    | (Ok a, w') => k a w'
    | (Throw e, w') => (Throw e, w')
    end.

Definition throw {A} (message : string) : M A := fun w => (Throw message, w).

(** [try { m } catch (err) { h err.message }] *)
Definition try_catch {A} (m : M A) (h : string -> M A) : M A :=
  fun w =>
    match m w with
    | (Ok a, w') => (Ok a, w')
    | (Throw e, w') => h e w'
    end.

Definition log (e : Event) : M unit := fun w => (Ok tt, emit e w).

Definition lift {A} (r : result A) : M A := fun w => (r, w).

Notation "'let*' x ':=' m 'in' k" := (bind m (fun x => k))
  (at level 10, x name, m at level 100, k at level 200).
Notation "m1 '*>' m2" := (bind m1 (fun _ => m2))
  (at level 60, right associativity).

(** [for (const x of l) { body x }] *)
Fixpoint for_of {A} (l : list A) (body : A -> M unit) : M unit :=
  match l with
  | [] => ret tt
  | x :: l' => body x *> for_of l' body
  end.

(** [for (const x of l) { acc = body acc x }]: a loop that updates one
    object. *)
Fixpoint for_of_acc {A S} (l : list A) (body : S -> A -> M S) (acc : S) : M S :=
  match l with
  | [] => ret acc
  | x :: l' => let* acc' := body acc x in for_of_acc l' body acc'
  end.

(** *** fs-extra *)

Definition fs_readFile (p : string) : M bytes :=
  log (FsRead p) *>
  (fun w =>
    match fs w !! p with
    | Some b => (Ok b, w)
    | None => (Throw ("ENOENT: no such file or directory, open " ++ p), w)
    end).

Definition fs_writeFile (p : string) (data : bytes) : M unit :=
  log (FsWrite p) *>
  (fun w =>
    if decide (p ∈ locked w)
    then (Throw ("EACCES: permission denied, open " ++ p), w)
    else (Ok tt, set_fs (insert p data) w)).

(** [fs.remove(p)]: removing an absent path succeeds. *)
Definition fs_remove (p : string) : M unit :=
  log (FsRemove p) *>
  (fun w =>
    if decide (p ∈ locked w)
    then (Throw ("EPERM: operation not permitted, unlink " ++ p), w)
    else (Ok tt, set_fs (delete p) w)).

(** [promise.catch(console.error)] *)
Definition catch_console_error (m : M unit) : M unit :=
  try_catch m (fun e => log (ConsoleError e)).

(** ** The server *)

Section Server.
Context (L : Libs).

Definition uploadsDir : string := path.join (dirname L) "uploads".
Definition tempDir : string := path.join uploadsDir "temp".

(** *** multer configuration *)

Definition allowedTypes : list string :=
  ["application/pdf"; "image/jpeg"; "image/png"; "image/jpg"; "image/webp"].

(** [fileFilter]: whether the part is accepted, or the error passed to
    the callback. *)
Definition fileFilter (file : Part) : result bool :=
  if existsb (String.eqb (part_type file)) allowedTypes
  then Ok true
  else Throw "Invalid file type. Only PDF and images (JPEG, PNG, WEBP) are allowed.".

(** [storage.destination] *)
Definition storage_destination (file : Part) : string := tempDir.

(** [storage.filename]: a fresh identifier, a dash, the original name. *)
Definition storage_filename (file : Part) : M string :=
  fun w => (Ok (uuidv4 L (drawn w) ++ "-" ++ part_name file), draw w).

(** The 50MB limit on one file. *)
Definition fileSize_limit : N := 50 * 1024 * 1024.

(** Disk storage of one accepted part: the file the handler later sees. *)
Definition store (file : Part) : M File :=
  let* uniqueName := storage_filename file in
  let p := path.join (storage_destination file) uniqueName in
  fun w =>
    (Ok {| originalname := part_name file; mimetype := part_type file;
           size := N.of_nat (length (part_data file)); filename := uniqueName;
           file_path := p |},
     set_fs (insert p (part_data file)) w).

(** *** pdf-lib and sharp calls, traced *)

Definition PDFDocument_create : M PDFDocument :=
  log PdfCreate *>
  (fun w => (Ok {| creationDate := now w; pages := [] |}, w)).

Definition load (b : bytes) : M PDFDocument :=
  log PdfLoad *> lift (PDFDocument_load L b).

Definition save (doc : PDFDocument) : M bytes :=
  log PdfSave *> ret (PDFDocument_save L doc).

Definition metadata_of (b : bytes) : M Metadata :=
  log SharpMetadata *> lift (sharp_metadata L b).

(** [doc.copyPages(src, [0])], destructured as [[page]] and added: the
    first page of [src]; a document without pages has none to copy. *)
Definition copyFirstPage (src : PDFDocument) : M PDFPage :=
  match pages src with
  | page :: _ => ret page
  | [] => throw "Cannot read properties of undefined"
  end.

(** *** [imageToPdf] *)

(** The size passed to [addPage]: each dimension is
    [metadata.dim * 72 / metadata.density || 72], and [||] binds weaker
    than [*] and [/]. *)
Definition page_dim (dim : number) (dens : option number) : number :=
  or_number (dim * 72 / ToNumber dens)%float 72%float.

(** The document [imageToPdf] builds, before it is saved. *)
Definition imageToPdf_doc (imagePath : string) : M PDFDocument :=
  let* imageBuffer := fs_readFile imagePath in
  let* metadata := metadata_of imageBuffer in
  let* pdfDoc := PDFDocument_create in
  let page := {| page_width := page_dim (width metadata) (density metadata);
                 page_height := page_dim (height metadata) (density metadata);
                 page_ops := [] |} in
  let pdfDoc := addPage pdfDoc page in
  let* image :=
    if String.eqb (toLowerCase (path.extname imagePath)) ".png"
    then log PdfEmbedPng *> lift (embedPng L imageBuffer)
    else log PdfEmbedJpg *> lift (embedJpg L imageBuffer) in
  let '(width, height) := (page_width page, page_height page) in
  let page := drawImage page image 0%float 0%float width height in
  ret {| creationDate := creationDate pdfDoc; pages := [page] |}.

Definition imageToPdf (imagePath : string) : M bytes :=
  let* pdfDoc := imageToPdf_doc imagePath in
  save pdfDoc.

(** *** Ordering *)

(** [ToString] of a parsed value, as [startsWith] applies it to its
    argument.  An array is joined with commas, [null] elements as empty
    strings.  An object parsed from JSON text is converted by
    [Object.prototype.toString], unless it has a member [toString] of its
    own: that member is not a function, neither is what [valueOf] gives a
    primitive, and the conversion throws a [TypeError]. *)
Fixpoint ToString (v : json) : result string :=
  match v with
  | JNull => Ok "null"
  | JBool true => Ok "true"
  | JBool false => Ok "false"
  | JNum lexeme => Ok (Number_toString L lexeme)
  | JStr s => Ok s
  | JArr elems =>
      let elem v := match v with JNull => Ok "" | _ => ToString v end in
      let? strs := Array_map elem elems in
      Ok (String.concat "," strs)
  | JObj members =>
      if existsb (fun m => String.eqb (fst m) "toString") members
      then Throw "Cannot convert object to primitive value"
      else Ok "[object Object]"
  end.

(** [orderArray.map]: only an array has the method. *)
Definition array_of (v : json) : result (list json) :=
  match v with
  | JArr elems => Ok elems
  | JNull => Throw "Cannot read properties of null (reading 'map')"
  | _ => Throw "orderArray.map is not a function"
  end.

(** [f.filename.startsWith(id)] *)
Definition named_by (id : json) (f : File) : result bool :=
  let? search := ToString id in
  Ok (startsWith (filename f) search).

(** [orderArray.map(id => files.find(f => f.filename.startsWith(id))).filter(Boolean)] *)
Definition sortedFiles (orderArray : list json) (files : list File)
  : result (list File) :=
  let? found := Array_map (fun id => Array_find (named_by id) files) orderArray in
  Ok (omap (fun f => f) found).

(** [files.filter(f => !orderArray.some(id => f.filename.startsWith(id)))] *)
Definition remainingFiles (orderArray : list json) (files : list File)
  : result (list File) :=
  Array_filter
    (fun f =>
       let? named := Array_some (fun id => named_by id f) orderArray in
       Ok (negb named))
    files.

(** [[...sortedFiles, ...remainingFiles]] *)
Definition allFiles (orderArray : list json) (files : list File)
  : result (list File) :=
  let? sorted := sortedFiles orderArray files in
  let? remaining := remainingFiles orderArray files in
  Ok (sorted ++ remaining)%list.

(** Lines 93 to 100: the descriptor parsed, and the files put in order. *)
Definition resolve_order (order : option string) (files : list File)
  : result (list File) :=
  match JSON_parse (or_undefined order "[]") with
  | Ok parsed =>
      match array_of parsed with
      | Ok orderArray => allFiles orderArray files
      | Throw e => Throw e
      end
  | Throw e => Throw e
  end.

(** *** The merge loop *)

(** The body of the loop over [allFiles], on the document built so far. *)
Definition merge_file (mergedPdf : PDFDocument) (file : File) : M PDFDocument :=
  let filePath := file_path file in
  let ext := toLowerCase (path.extname (originalname file)) in
  try_catch
    (if String.eqb ext ".pdf" then
       let* pdfBytes := fs_readFile filePath in
       let* pdf := load pdfBytes in
       let copiedPages := pages pdf in
       ret (addPages mergedPdf copiedPages)
     else
       let* imagePdfBytes := imageToPdf filePath in
       let* imagePdf := load imagePdfBytes in
       let* page := copyFirstPage imagePdf in
       ret (addPage mergedPdf page))
    (fun err =>
       log (ConsoleError ("Error processing file " ++ originalname file ++ ": " ++ err)) *>
       throw ("Failed to process " ++ originalname file)).

(** [PDFDocument.create()] and the loop: the merged document. *)
Definition merge (files : list File) : M PDFDocument :=
  let* mergedPdf := PDFDocument_create in
  for_of_acc files merge_file mergedPdf.

(** A document without pages, to measure what one file adds. *)
Definition empty_doc : PDFDocument := {| creationDate := 0; pages := [] |}.

(** The pages one turn of the loop adds for [file], or the error it
    throws. *)
Definition contribution (w : World) (file : File) : result (list PDFPage) :=
  match merge_file empty_doc file w with
  | (Ok doc, _) => Ok (pages doc)
  | (Throw e, _) => Throw e
  end.

(** Which branch of the loop a file takes. *)
Definition is_pdf (file : File) : bool :=
  String.eqb (toLowerCase (path.extname (originalname file))) ".pdf".

(** Which codec [imageToPdf] embeds the file at [imagePath] with. *)
Definition codec_of (imagePath : string) : codec :=
  if String.eqb (toLowerCase (path.extname imagePath)) ".png" then PNG else JPG.

(** *** Cleanup *)

(** [for (const file of files) await fs.remove(file.path).catch(console.error)] *)
Definition cleanup (files : list File) : M unit :=
  for_of files (fun file => catch_console_error (fs_remove (file_path file))).

(** The callback of [res.download]: the error, if any, is logged, and the
    removal of the output is scheduled a minute later. *)
Definition download_callback (outputPath : string) : M unit :=
  (fun w =>
     match download_err w with
     | Some e => log (ConsoleError ("Download error: " ++ e)) w
     | None => (Ok tt, w)
     end) *>
  log (SetTimeout 60000%N) *>
  (fun w => (Ok tt, add_timer (60000%N, outputPath) w)).

(** The pending timers fire: each removes its file, failures logged. *)
Definition run_timers : M unit :=
  fun w =>
    for_of (timers w) (fun t => catch_console_error (fs_remove (snd t)))
      (clear_timers w).

(** *** The [/api/merge] handler *)

(** The [try] block. *)
Definition merge_try (req : Request) : M Response :=
  let order := body_order req in
  let files := req_files req in
  match files with
  | None | Some [] => ret (Json 400 "No files uploaded")
  | Some files =>
      let* allFiles := lift (resolve_order order files) in
      let* mergedPdf := merge allFiles in
      let* mergedPdfBytes := save mergedPdf in
      let* id := (fun w => (Ok (uuidv4 L (drawn w)), draw w)) in
      let outputFilename := "merged-" ++ id ++ ".pdf" in
      let outputPath := path.join uploadsDir outputFilename in
      fs_writeFile outputPath mergedPdfBytes *>
      cleanup allFiles *>
      download_callback outputPath *>
      ret (Download outputPath "merged-invoice.pdf")
  end.

(** The handler: the [try] block and its [catch]. *)
Definition merge_handler (req : Request) : M Response :=
  try_catch (merge_try req)
    (fun message =>
       log (ConsoleError ("Merge error: " ++ message)) *>
       match req_files req with
       | Some files => cleanup files
       | None => ret tt
       end *>
       ret (Json 500 (or_string message "Failed to merge files"))).

End Server.

(** A computation that only reads: it leaves the world as it found it but
    for the calls it adds to the trace, none of them a write or a removal,
    and its result depends on the file system and the clock alone. *)
Definition reads_only {A} (m : M A) : Prop :=
  (forall w, exists evs,
     snd (m w) = emit_all evs w /\ writes evs = [] /\ removals evs = []) /\
  (forall w1 w2, fs w1 = fs w2 -> now w1 = now w2 -> fst (m w1) = fst (m w2)).

(** Two parse results that agree on the pages, whatever the metadata. *)
Definition same_pages (r1 r2 : result PDFDocument) : Prop :=
  match r1, r2 with
  | Ok d1, Ok d2 => pages d1 = pages d2
  | Throw _, Throw _ => True
  | _, _ => False
  end.

(** What pdf-lib loads back from a saved document depends on the pages of
    that document, not on its creation date. *)
Definition reload_by_pages (L : Libs) : Prop :=
  forall d d', pages d = pages d' ->
    same_pages (PDFDocument_load L (PDFDocument_save L d))
               (PDFDocument_load L (PDFDocument_save L d')).

(** The same input in two runs: the same original name and the same
    bytes, stored under paths that may differ but for the codec their
    extension selects. *)
Definition same_input (w1 w2 : World) (f1 f2 : File) : Prop :=
  originalname f1 = originalname f2 /\
  fs w1 !! file_path f1 = fs w2 !! file_path f2 /\
  codec_of (file_path f1) = codec_of (file_path f2).

(** The loop, on the contributions of the files: the runs appended in
    turn, up to the first that throws. *)
Fixpoint merge_runs (rs : list (result (list PDFPage))) (doc : PDFDocument)
  : result PDFDocument :=
  match rs with
  | [] => Ok doc
  | Ok run :: rs' =>
      merge_runs rs' {| creationDate := creationDate doc; pages := pages doc ++ run |}
  | Throw e :: _ => Throw e
  end.

(** The pdf-lib call that embeds with a codec. *)
Definition embed_event (c : codec) : Event :=
  match c with
  | PNG => PdfEmbedPng
  | JPG => PdfEmbedJpg
  end.

(** The same file, declared with another MIME type. *)
Definition with_mimetype (m : string) (f : File) : File :=
  {| originalname := originalname f; mimetype := m; size := size f;
     filename := filename f; file_path := file_path f |}.

(** [JSON.stringify(ids)] for identifiers that need no escaping, as the
    client builds the [order] field. *)
Definition JSON_stringify (ids : list string) : string :=
  let quote := String (ascii_of_nat 34) "" in
  "[" ++ String.concat "," (map (fun id => quote ++ id ++ quote) ids) ++ "]".

(** A descriptor the handler can use: absent, empty, or the JSON text of
    an array every entry of which [startsWith] can convert to a string. *)
Definition descriptor_ok (L : Libs) (order : option string) : Prop :=
  exists elems ids,
    JSON_parse (or_undefined order "[]") = Ok (JArr elems) /\
    Array_map (ToString L) elems = Ok ids.

(** ** A small instance of the libraries

    Byte strings short enough to write down: a document is the byte [%]
    followed by one byte per page; an image is a tag byte ([0x89] for PNG,
    [0xff] for JPEG), its width, its height and its density ([0] when it
    carries none). *)

Module Toy.

Definition number_of_byte (b : Byte.byte) : number :=
  PrimFloat.of_uint63 (Uint63.of_Z (Z.of_N (Byte.to_N b))).

Definition page_of_byte (b : Byte.byte) : PDFPage :=
  {| page_width := 612%float; page_height := 792%float; page_ops := [Content [b]] |}.

Definition load (b : bytes) : result PDFDocument :=
  match b with
  | Byte.x25 :: rest => Ok {| creationDate := 0; pages := map page_of_byte rest |}
  | _ => Throw "Failed to parse PDF document"
  end.

Definition save (d : PDFDocument) : bytes :=
  Byte.x25 :: map (fun _ => Byte.x01) (pages d).

Definition is_image_tag (b : Byte.byte) : bool :=
  match b with
  | Byte.x89 | Byte.xff => true
  | _ => false
  end.

Definition metadata (b : bytes) : result Metadata :=
  match b with
  | tag :: w :: h :: d :: _ =>
      if is_image_tag tag then
        Ok {| width := number_of_byte w; height := number_of_byte h;
              density := match d with
                         | Byte.x00 => None
                         | _ => Some (number_of_byte d)
                         end |}
      else Throw "Input buffer contains unsupported image format"
  | _ => Throw "Input buffer contains unsupported image format"
  end.

Definition png (b : bytes) : result PDFImage :=
  match b with
  | Byte.x89 :: _ => Ok {| image_codec := PNG; image_data := b |}
  | _ => Throw "The input is not a PNG file!"
  end.

Definition jpg (b : bytes) : result PDFImage :=
  match b with
  | Byte.xff :: _ => Ok {| image_codec := JPG; image_data := b |}
  | _ => Throw "SOI not found in JPEG"
  end.

Definition libs : Libs :=
  {| PDFDocument_load := load;
     serializeToBuffer := save;
     embedPng := png;
     embedJpg := jpg;
     sharp_metadata := metadata;
     uuidv4 := fun n => "u" ++ pretty n;
     Number_toString := fun lexeme => lexeme;
     dirname := "/srv" |}.

(** An empty disk at time 0. *)
Definition world0 : World :=
  {| fs := ∅; locked := ∅; trace := []; timers := []; now := 0; drawn := 0;
     download_err := None |}.

(** [store] applied to each part in turn: the files and the world the
    handler starts from. *)
Fixpoint upload (parts : list Part) : M (list File) :=
  match parts with
  | [] => ret []
  | p :: ps =>
      let* f := store libs p in
      let* fs := upload ps in
      ret (f :: fs)
  end.

(** A two-page document, a one-page document, something unreadable, and
    a 200 by 100 PNG without density. *)
Definition two_pages : bytes := [Byte.x25; Byte.x41; Byte.x42].
Definition one_page : bytes := [Byte.x25; Byte.x43].
Definition corrupt : bytes := [Byte.x00; Byte.x00].
Definition png_200x100 : bytes := [Byte.x89; Byte.xc8; Byte.x64; Byte.x00].
Definition jpg_72dpi : bytes := [Byte.xff; Byte.xc8; Byte.x64; Byte.x48].

(** A request body: a two-page document, an image, a one-page document. *)
Definition parts : list Part :=
  [ {| part_name := "a.pdf"; part_type := "application/pdf"; part_data := two_pages |};
    {| part_name := "b.png"; part_type := "image/png"; part_data := png_200x100 |};
    {| part_name := "c.pdf"; part_type := "application/pdf"; part_data := one_page |} ].

(** The files as stored, and the world after their storage. *)
Definition files : list File :=
  Eval vm_compute in
  match fst (upload parts world0) with
  | Ok fl => fl
  | Throw _ => []
  end.

Definition world1 : World := snd (upload parts world0).

(** The same body uploaded again, later, after other identifiers were
    drawn. *)
Definition later : World :=
  {| fs := ∅; locked := ∅; trace := []; timers := []; now := 60; drawn := 3;
     download_err := None |}.

Definition files_again : list File :=
  Eval vm_compute in
  match fst (upload parts later) with
  | Ok fl => fl
  | Throw _ => []
  end.

Definition world_again : World := snd (upload parts later).

(** Identifiers shaped like version 4 UUIDs: eight characters, a dash,
    and the rest. *)
Definition uuid_like (n : nat) : string :=
  ((if Nat.even n then "a1b2c3d4" else "e5f6a7b8") ++ "-0000-4000-8000-000000000000")%string.

Definition libs_v4 : Libs :=
  {| PDFDocument_load := load;
     serializeToBuffer := save;
     embedPng := png;
     embedJpg := jpg;
     sharp_metadata := metadata;
     uuidv4 := uuid_like;
     Number_toString := fun lexeme => lexeme;
     dirname := "/srv" |}.

(** A document without pages, and a request body with that document
    alone. *)
Definition no_pages : bytes := [Byte.x25].

Definition blank_parts : list Part :=
  [ {| part_name := "blank.pdf"; part_type := "application/pdf"; part_data := no_pages |} ].

Definition blank_files : list File :=
  Eval vm_compute in
  match fst (upload blank_parts world0) with
  | Ok fl => fl
  | Throw _ => []
  end.

Definition blank_world : World := snd (upload blank_parts world0).

(** A request body whose second file cannot be parsed. *)
Definition bad_parts : list Part :=
  [ {| part_name := "a.pdf"; part_type := "application/pdf"; part_data := two_pages |};
    {| part_name := "bad.pdf"; part_type := "application/pdf"; part_data := corrupt |};
    {| part_name := "b.png"; part_type := "image/png"; part_data := png_200x100 |} ].

Definition bad_files : list File :=
  Eval vm_compute in
  match fst (upload bad_parts world0) with
  | Ok fl => fl
  | Throw _ => []
  end.

Definition bad_world : World := snd (upload bad_parts world0).

End Toy.

(** ** The client: the [App] component

    The state of the component is the list of chosen files, each with the
    identifier drawn for it; a browser [File] is a [Part]: a name, a type
    and bytes. *)

Module Client.

Record Item := { id : string; file : Part }.

(** What the component shows under the list. *)
Inductive Status :=
  | NoStatus
  | ErrorStatus (message : string)
  | LoadingStatus (message : string)
  | SuccessStatus (message : string).

(** [onDrop]: the accepted files are appended, each under the identifier
    [Math.random().toString(36).substr(2, 9)]; [random36 k] is the text
    [Math.random().toString(36)] gives for the k-th accepted file. *)
Definition onDrop (random36 : nat -> string) (acceptedFiles : list Part)
    (prev : list Item) : list Item :=
  (prev ++ imap (fun k f => {| id := substr (random36 k) 2 9; file := f |})
             acceptedFiles)%list.

(** [removeFile]: [prev.filter((f) => f.id !== id)] *)
Definition removeFile (i : string) (prev : list Item) : list Item :=
  List.filter (fun f => negb (String.eqb (id f) i)) prev.

(** [items.findIndex((item) => item.id === i)]: the index, or -1. *)
Fixpoint findIndex (i : string) (items : list Item) : Z :=
  match items with
  | [] => (-1)%Z
  | item :: rest =>
      if String.eqb (id item) i then 0%Z
      else match findIndex i rest with
           | Zneg _ => (-1)%Z
           | k => (k + 1)%Z
           end
  end.

(** The start index [splice] works from: a negative [start] counts from
    the end, and the result is clamped to the array. *)
Definition splice_start {A} (l : list A) (start : Z) : nat :=
  let len := Z.of_nat (length l) in
  Z.to_nat (if (start <? 0)%Z then Z.max (len + start) 0 else Z.min start len).

(** [arrayMove] of dnd-kit: on a copy of the array,
    [splice(to < 0 ? length + to : to, 0, splice(from, 1)[0])].  The
    target index is computed first, on the full length; then the element
    at [from] is taken out; then it is put in.  [None] when there is no
    element to take out: the array then receives [undefined]. *)
Definition arrayMove {A} (array : list A) (from to : Z) : option (list A) :=
  let target := if (to <? 0)%Z then (Z.of_nat (length array) + to)%Z else to in
  let i := splice_start array from in
  match array !! i with
  | Some x =>
      let rest := (take i array ++ drop (S i) array)%list in
      let j := splice_start rest target in
      Some (take j rest ++ x :: drop j rest)%list
  | None => None
  end.

(** [handleDragEnd]: [over] is [null] when the item is dropped outside
    the list, and then [over.id] throws; dropped on itself, the list is
    left alone. *)
Definition handleDragEnd (active : string) (over : option string) (items : list Item)
  : result (option (list Item)) :=
  match over with
  | None => Throw "Cannot read properties of null (reading 'id')"
  | Some o =>
      if negb (String.eqb active o)
      then Ok (arrayMove items (findIndex active items) (findIndex o items))
      else Ok (Some items)
  end.

(** The [order] field of the form: [JSON.stringify(files.map((f) => f.id))]. *)
Definition order_field (files : list Item) : string := JSON_stringify (id <$> files).

(** [handleMerge], up to the request: nothing is sent for an empty list;
    otherwise the form holds the files in list order, then the [order]
    field. *)
Definition handleMerge (files : list Item) : Status + (list Part * string) :=
  match files with
  | [] => inl (ErrorStatus "Please add some files first")
  | _ => inr (file <$> files, order_field files)
  end.

End Client.

(** A character [JSON.stringify] writes as it is and a string literal of
    [JSON.parse] takes as it is: not a quote, not a backslash, not a
    control character. *)
Definition plain_char (c : ascii) : bool :=
  let n := nat_of_ascii c in
  negb (n =? 34)%nat && negb (n <? 32)%nat && negb (n =? 92)%nat.

Fixpoint plain (s : string) : bool :=
  match s with
  | EmptyString => true
  | String c s' => plain_char c && plain s'
  end.

(** The string holds no occurrence of the character. *)
Fixpoint no_char (c : ascii) (s : string) : bool :=
  match s with
  | EmptyString => true
  | String d s' => negb (Ascii.eqb d c) && no_char c s'
  end.

(** A digit of base 36, as [toString(36)] writes them. *)
Definition base36_char (c : ascii) : bool :=
  let n := nat_of_ascii c in
  ((48 <=? n)%nat && (n <=? 57)%nat) || ((97 <=? n)%nat && (n <=? 122)%nat).

Fixpoint base36 (s : string) : bool :=
  match s with
  | EmptyString => true
  | String c s' => base36_char c && base36 s'
  end.

(** The text [Math.random().toString(36)] gives for a number that prints
    with at least nine digits after the point. *)
Definition nine_digit_text (text : string) : Prop :=
  exists digits,
    text = ("0." ++ digits)%string /\ base36 digits = true /\
    (9 <= String.length digits)%nat.

(** The lists the component can hold as long as the random numbers print
    that way: the empty list of [useState([])] and of the button Clear
    all, and what [onDrop], [removeFile] and a [handleDragEnd] that
    returns make of a list it holds. *)
Inductive reachable : list Client.Item -> Prop :=
  | reachable_initial : reachable []
  | reachable_onDrop random36 acceptedFiles prev :
      reachable prev ->
      (forall k, (k < length acceptedFiles)%nat -> nine_digit_text (random36 k)) ->
      reachable (Client.onDrop random36 acceptedFiles prev)
  | reachable_removeFile i prev :
      reachable prev -> reachable (Client.removeFile i prev)
  | reachable_handleDragEnd active over prev items :
      reachable prev ->
      Client.handleDragEnd active over prev = Ok (Some items) ->
      reachable items.

(** * Properties *)

Local Open Scope list_scope.

(** ** Worlds and traces *)

Lemma emit_all_nil w : emit_all [] w = w.
Proof. destruct w; unfold emit_all; simpl. by rewrite app_nil_r. Qed.

Lemma emit_all_app evs1 evs2 w :
  emit_all evs2 (emit_all evs1 w) = emit_all (evs1 ++ evs2) w.
Proof. unfold emit_all; simpl. by rewrite app_assoc. Qed.

Lemma emit_emit_all e w : emit e w = emit_all [e] w.
Proof. reflexivity. Qed.

Lemma removals_app evs1 evs2 :
  removals (evs1 ++ evs2) = removals evs1 ++ removals evs2.
Proof. unfold removals. apply omap_app. Qed.

Lemma writes_app evs1 evs2 : writes (evs1 ++ evs2) = writes evs1 ++ writes evs2.
Proof. unfold writes. apply omap_app. Qed.

(** ** Cleanup never throws *)

(** One guarded removal: it returns normally whether or not the removal
    fails, having called [fs.remove] once; the files on disk can only
    have shrunk. *)
Lemma guarded_remove_ok p w :
  exists evs w',
    catch_console_error (fs_remove p) w = (Ok tt, w') /\
    trace w' = trace w ++ evs /\ removals evs = [p] /\ writes evs = [] /\
    locked w' = locked w /\ timers w' = timers w /\
    (p ∈ locked w -> fs w' = fs w) /\
    (p ∉ locked w -> fs w' = delete p (fs w)).
Proof.
  unfold catch_console_error, try_catch, fs_remove, bind, log, emit, set_fs; simpl.
  destruct (decide (p ∈ locked w)) as [Hin|Hout]; simpl.
  - eexists [FsRemove p; ConsoleError _], _. simpl.
    split; [reflexivity|]. rewrite <- app_assoc. simpl. repeat split; tauto.
  - eexists [FsRemove p], _. simpl.
    split; [reflexivity|]. repeat split; tauto.
Qed.

(** A loop of guarded removals runs to its end: it returns normally, and
    [fs.remove] has been called on every path, in order. *)
Lemma for_of_guarded_remove {A} (g : A -> string) (l : list A) w :
  exists evs w',
    for_of l (fun x => catch_console_error (fs_remove (g x))) w = (Ok tt, w') /\
    trace w' = trace w ++ evs /\ removals evs = g <$> l /\ writes evs = [] /\
    locked w' = locked w /\ timers w' = timers w /\ fs w' ⊆ fs w.
Proof.
  revert w. induction l as [|x l IH]; intros w.
  - exists [], w. simpl. rewrite app_nil_r. repeat split; done.
  - destruct (guarded_remove_ok (g x) w)
      as (evs1 & w1 & Hrun & Htr & Hrm & Hwr & Hlk & Htm & Hfail & Hdel).
    destruct (IH w1) as (evs2 & w2 & Hrun2 & Htr2 & Hrm2 & Hwr2 & Hlk2 & Htm2 & Hfs2).
    exists (evs1 ++ evs2), w2. simpl. unfold bind at 1. rewrite Hrun.
    split; [exact Hrun2|].
    rewrite Htr2, Htr, app_assoc, removals_app, writes_app, Hrm, Hrm2, Hwr, Hwr2.
    repeat split; try congruence.
    etrans; [exact Hfs2|].
    destruct (decide (g x ∈ locked w)) as [Hin|Hout].
    + by rewrite Hfail.
    + rewrite Hdel by done. apply delete_subseteq.
Qed.

(** C8. Cleanup is best-effort.  In every world, also one where removals
    fail (a removal of a locked path throws), each cleanup loop of the
    handler, over the files of a request and over the pending timers,
    returns normally and has called [fs.remove] on every one of its
    paths, in order: a failed removal neither reaches the caller nor stops
    the removals after it.  Removing a path that is absent succeeds. *)
Theorem cleanup_never_throws (files : list File) (w : World) :
  (forall p, p ∈ locked w -> exists e, fst (fs_remove p w) = Throw e) /\
  (forall p, p ∉ locked w -> fs w !! p = None -> fst (fs_remove p w) = Ok tt) /\
  (exists evs w',
     cleanup files w = (Ok tt, w') /\
     trace w' = trace w ++ evs /\ removals evs = file_path <$> files) /\
  (exists evs w',
     run_timers w = (Ok tt, w') /\
     trace w' = trace w ++ evs /\ removals evs = snd <$> timers w).
Proof.
  repeat split.
  - intros p Hp. unfold fs_remove, bind, log; simpl.
    destruct (decide (p ∈ locked w)); [eauto | done].
  - intros p Hp _. unfold fs_remove, bind, log; simpl.
    destruct (decide (p ∈ locked w)); done.
  - destruct (for_of_guarded_remove file_path files w) as (evs & w' & H & Ht & Hr & _).
    exists evs, w'. done.
  - destruct (for_of_guarded_remove snd (timers w) (clear_timers w))
      as (evs & w' & H & Ht & Hr & _).
    exists evs, w'. done.
Qed.

(** A world where the first of two temp files cannot be removed: the
    second is removed all the same. *)
Example cleanup_past_a_failure :
  let f1 := {| originalname := "a.pdf"; mimetype := "application/pdf"; size := 3;
               filename := "u0-a.pdf"; file_path := "/srv/uploads/temp/u0-a.pdf" |} in
  let f2 := {| originalname := "b.pdf"; mimetype := "application/pdf"; size := 2;
               filename := "u1-b.pdf"; file_path := "/srv/uploads/temp/u1-b.pdf" |} in
  let w := {| fs := {[ file_path f1 := Toy.two_pages; file_path f2 := Toy.one_page ]};
              locked := {[ file_path f1 ]}; trace := []; timers := [];
              now := 0; drawn := 2; download_err := None |} in
  let r := cleanup [f1; f2] w in
  fst r = Ok tt /\
  trace (snd r) =
    [FsRemove (file_path f1);
     ConsoleError ("EPERM: operation not permitted, unlink " ++ file_path f1)%string;
     FsRemove (file_path f2)] /\
  fs (snd r) !! file_path f1 = Some Toy.two_pages /\
  fs (snd r) !! file_path f2 = None.
Proof. vm_compute. repeat split; reflexivity. Qed.

(** ** The empty-files guard *)

(** C7. A request without files, [req.files] undefined or empty, is
    answered 400 [No files uploaded], and the world is left exactly as it
    was: nothing read, parsed, written or removed, no document created. *)
Theorem no_files_is_400 (L : Libs) (req : Request) (w : World) :
  req_files req = None \/ req_files req = Some [] ->
  merge_handler L req w = (Ok (Json 400 "No files uploaded"), w).
Proof.
  intros [H|H]; unfold merge_handler, merge_try, try_catch; rewrite H; reflexivity.
Qed.

Lemma no_files_is_400_witness :
  merge_handler Toy.libs {| body_order := Some "not json"; req_files := Some [] |}
    Toy.world0
  = (Ok (Json 400 "No files uploaded"), Toy.world0).
Proof.
  apply (no_files_is_400 Toy.libs {| body_order := Some "not json"; req_files := Some [] |}).
  right. reflexivity.
Defined.

(** ** Computations that only read *)

Lemma reads_only_ret {A} (a : A) : reads_only (ret a).
Proof. split; [intros w; exists []; simpl; by rewrite emit_all_nil | done]. Qed.

Lemma reads_only_throw {A} e : reads_only (@throw A e).
Proof. split; [intros w; exists []; simpl; by rewrite emit_all_nil | done]. Qed.

Lemma reads_only_lift {A} (r : result A) : reads_only (lift r).
Proof. split; [intros w; exists []; simpl; by rewrite emit_all_nil | done]. Qed.

Lemma reads_only_log e :
  writes [e] = [] -> removals [e] = [] -> reads_only (log e).
Proof. intros Hw Hr. split; [intros w; by exists [e] | done]. Qed.

Lemma reads_only_bind {A B} (m : M A) (k : A -> M B) :
  reads_only m -> (forall a, reads_only (k a)) -> reads_only (bind m k).
Proof.
  intros [Hm1 Hm2] Hk. split.
  - intros w. unfold bind. destruct (Hm1 w) as (evs & Hevs & Hw & Hr).
    destruct (m w) as [[a|e] w1]; simpl in *; subst w1.
    + destruct (Hk a) as [Hk1 _].
      destruct (Hk1 (emit_all evs w)) as (evs' & H' & Hw' & Hr').
      exists (evs ++ evs').
      by rewrite H', emit_all_app, writes_app, removals_app, Hw, Hw', Hr, Hr'.
    + by exists evs.
  - intros w1 w2 Hfs Hnow. unfold bind.
    destruct (Hm1 w1) as (evs1 & H1 & _). destruct (Hm1 w2) as (evs2 & H2 & _).
    pose proof (Hm2 w1 w2 Hfs Hnow) as Hr.
    destruct (m w1) as [r1 w1'], (m w2) as [r2 w2']; simpl in *; subst.
    destruct r2 as [a|e]; [|done].
    destruct (Hk a) as [_ Hk2]. by apply Hk2.
Qed.

Lemma reads_only_try_catch {A} (m : M A) (h : string -> M A) :
  reads_only m -> (forall e, reads_only (h e)) -> reads_only (try_catch m h).
Proof.
  intros [Hm1 Hm2] Hh. split.
  - intros w. unfold try_catch. destruct (Hm1 w) as (evs & Hevs & Hw & Hr).
    destruct (m w) as [[a|e] w1]; simpl in *; subst w1.
    + by exists evs.
    + destruct (Hh e) as [Hh1 _].
      destruct (Hh1 (emit_all evs w)) as (evs' & H' & Hw' & Hr').
      exists (evs ++ evs').
      by rewrite H', emit_all_app, writes_app, removals_app, Hw, Hw', Hr, Hr'.
  - intros w1 w2 Hfs Hnow. unfold try_catch.
    destruct (Hm1 w1) as (evs1 & H1 & _). destruct (Hm1 w2) as (evs2 & H2 & _).
    pose proof (Hm2 w1 w2 Hfs Hnow) as Hr.
    destruct (m w1) as [r1 w1'], (m w2) as [r2 w2']; simpl in *; subst.
    destruct r2 as [a|e]; [done|].
    destruct (Hh e) as [_ Hh2]. by apply Hh2.
Qed.

Lemma reads_only_readFile p : reads_only (fs_readFile p).
Proof.
  unfold fs_readFile. apply reads_only_bind; [by apply reads_only_log|].
  intros _. split.
  - intros w. exists []. rewrite emit_all_nil. by destruct (fs w !! p).
  - intros w1 w2 Hfs _. simpl. rewrite Hfs. by destruct (fs w2 !! p).
Qed.

Lemma reads_only_create : reads_only PDFDocument_create.
Proof.
  unfold PDFDocument_create. apply reads_only_bind; [by apply reads_only_log|].
  intros _. split.
  - intros w. exists []. by rewrite emit_all_nil.
  - intros w1 w2 _ Hnow. simpl. by rewrite Hnow.
Qed.

Lemma reads_only_for_of_acc {A S} (body : S -> A -> M S) (l : list A) :
  (forall acc x, reads_only (body acc x)) ->
  forall acc, reads_only (for_of_acc l body acc).
Proof.
  intros Hb. induction l as [|x l IH]; intros acc; simpl.
  - apply reads_only_ret.
  - apply reads_only_bind; [apply Hb | intros acc'; apply IH].
Qed.

Create HintDb reads discriminated.
#[local] Hint Resolve reads_only_ret reads_only_throw reads_only_lift
  reads_only_readFile reads_only_create : reads.

Ltac reads_only_tac :=
  repeat first
    [ solve [auto with reads]
    | solve [apply reads_only_log; reflexivity]
    | apply reads_only_bind; [|intros ?]
    | apply reads_only_try_catch; [|intros ?]
    | match goal with |- reads_only (if ?b then _ else _) => destruct b end
    | match goal with |- reads_only (match ?x with _ => _ end) => destruct x end ].

Section ReadOnly.
Context (L : Libs).

Lemma reads_only_load b : reads_only (load L b).
Proof. unfold load. reads_only_tac. Qed.

Lemma reads_only_save d : reads_only (save L d).
Proof. unfold save. reads_only_tac. Qed.

Lemma reads_only_metadata b : reads_only (metadata_of L b).
Proof. unfold metadata_of. reads_only_tac. Qed.

Lemma reads_only_copyFirstPage d : reads_only (copyFirstPage d).
Proof. unfold copyFirstPage. reads_only_tac. Qed.

Lemma reads_only_imageToPdf p : reads_only (imageToPdf L p).
Proof.
  pose proof reads_only_save. pose proof reads_only_metadata.
  unfold imageToPdf, imageToPdf_doc. reads_only_tac; auto.
Qed.

Lemma reads_only_merge_file doc f : reads_only (merge_file L doc f).
Proof.
  pose proof reads_only_load. pose proof reads_only_imageToPdf.
  pose proof reads_only_copyFirstPage.
  unfold merge_file. reads_only_tac; auto.
Qed.

Lemma reads_only_merge files : reads_only (merge L files).
Proof.
  unfold merge. apply reads_only_bind; [apply reads_only_create|].
  intros d. apply reads_only_for_of_acc. intros. apply reads_only_merge_file.
Qed.
End ReadOnly.

(** ** The merge loop *)

Lemma addPages_spec doc ps :
  addPages doc ps = {| creationDate := creationDate doc; pages := pages doc ++ ps |}.
Proof.
  revert doc. induction ps as [|p ps IH]; intros doc; simpl.
  - destruct doc; simpl. by rewrite app_nil_r.
  - rewrite IH. simpl. by rewrite <- app_assoc.
Qed.

Section Merge.
Context (L : Libs).

(** One turn of the loop appends the file's contribution to the document
    built so far, or throws as the contribution does. *)
Lemma merge_file_acc doc f w :
  fst (merge_file L doc f w) =
    match contribution L w f with
    | Ok run => Ok {| creationDate := creationDate doc; pages := pages doc ++ run |}
    | Throw e => Throw e
    end.
Proof.
  unfold contribution, merge_file, try_catch, bind, log, throw.
  destruct (String.eqb _ ".pdf").
  - destruct (fs_readFile (file_path f) w) as [[b|e] w1]; cbv beta iota; [|done].
    destruct (load L b w1) as [[d|e] w2]; cbv beta iota; [|done].
    unfold ret. by rewrite !addPages_spec.
  - destruct (imageToPdf L (file_path f) w) as [[b|e] w1]; cbv beta iota; [|done].
    destruct (load L b w1) as [[d|e] w2]; cbv beta iota; [|done].
    destruct (copyFirstPage d w2) as [[p|e] w3]; cbv beta iota; done.
Qed.

Lemma merge_file_frame doc f w :
  fs (snd (merge_file L doc f w)) = fs w /\ now (snd (merge_file L doc f w)) = now w.
Proof.
  destruct (reads_only_merge_file L doc f) as [H _].
  destruct (H w) as (evs & -> & _). done.
Qed.

Lemma contribution_reads w1 w2 f :
  fs w1 = fs w2 -> now w1 = now w2 -> contribution L w1 f = contribution L w2 f.
Proof.
  intros Hfs Hnow. unfold contribution.
  destruct (reads_only_merge_file L empty_doc f) as [_ H].
  specialize (H w1 w2 Hfs Hnow).
  destruct (merge_file L empty_doc f w1) as [r1 ?], (merge_file L empty_doc f w2) as [r2 ?].
  simpl in H. by subst.
Qed.

(** The loop over files that all contribute: their runs, concatenated in
    order after the pages already there. *)
Lemma merge_loop files : forall doc w,
  Forall (fun f => exists run, contribution L w f = Ok run) files ->
  exists runs w',
    for_of_acc files (merge_file L) doc w =
      (Ok {| creationDate := creationDate doc; pages := pages doc ++ concat runs |}, w') /\
    Forall2 (fun f run => contribution L w f = Ok run) files runs /\
    fs w' = fs w /\ now w' = now w.
Proof.
  induction files as [|f files IH]; intros doc w Hall.
  - exists [], w. simpl. rewrite app_nil_r. by destruct doc.
  - inversion Hall as [|? ? [run Hrun] Hrest]; subst.
    pose proof (merge_file_acc doc f w) as Hacc. rewrite Hrun in Hacc.
    destruct (merge_file_frame doc f w) as [Hfs Hnow].
    simpl. unfold bind at 1.
    destruct (merge_file L doc f w) as [r w1]. simpl in *. subst r.
    destruct (IH {| creationDate := creationDate doc; pages := pages doc ++ run |} w1)
      as (runs & w' & Hloop & Hruns & Hfs' & Hnow').
    { eapply Forall_impl; [exact Hrest|]. intros g [rg Hg]. exists rg.
      by rewrite (contribution_reads w1 w g). }
    exists (run :: runs), w'. rewrite Hloop. simpl. rewrite <- app_assoc.
    repeat split; try congruence.
    constructor; [done|].
    eapply Forall2_impl; [exact Hruns|]. intros g rg Hg.
    by rewrite <- (contribution_reads w1 w g).
Qed.


(** What a file of the PDF branch contributes: the pages of the parsed
    file, as parsed. *)
Lemma contribution_pdf w f run :
  is_pdf f = true -> contribution L w f = Ok run ->
  exists b src,
    fs w !! file_path f = Some b /\ PDFDocument_load L b = Ok src /\ run = pages src.
Proof.
  unfold is_pdf, contribution, merge_file, try_catch, bind. intros ->.
  unfold fs_readFile, load, bind, log, lift. simpl.
  destruct (fs w !! file_path f) as [b|] eqn:Hb; simpl; [|done].
  destruct (PDFDocument_load L b) as [src|e] eqn:Hsrc; simpl; [|done].
  rewrite addPages_spec. simpl. intros [= <-]. by exists b, src.
Qed.


(** What a file of the image branch contributes: the first page of the
    document pdf-lib loads back from what [imageToPdf] saved. *)
Lemma contribution_image_page w f run :
  is_pdf f = false -> contribution L w f = Ok run ->
  exists built w1 imagePdf page rest,
    imageToPdf_doc L (file_path f) w = (Ok built, w1) /\
    PDFDocument_load L (PDFDocument_save L built) = Ok imagePdf /\
    pages imagePdf = page :: rest /\ run = [page].
Proof.
  unfold is_pdf, contribution, merge_file, try_catch. intros ->.
  unfold imageToPdf, save, load, copyFirstPage, bind, log, lift, ret, throw.
  destruct (imageToPdf_doc L (file_path f) w) as [[built|e] w1]; cbv beta iota; [|done].
  destruct (PDFDocument_load L (PDFDocument_save L built)) as [imagePdf|e] eqn:Hload;
    cbv beta iota; [|done].
  destruct (pages imagePdf) as [|page rest] eqn:Hpages; cbv beta iota; [done|].
  simpl. intros [= <-]. by exists built, w1, imagePdf, page, rest.
Qed.

(** [save] returns what pdf-lib writes for the document made ready. *)
Lemma save_spec doc w :
  save L doc w = (Ok (serializeToBuffer L (prepareForSave doc)), emit PdfSave w).
Proof. reflexivity. Qed.

Lemma prepareForSave_pages doc :
  (pages doc <> [] -> pages (prepareForSave doc) = pages doc) /\
  (pages doc = [] -> pages (prepareForSave doc) = [default_page]).
Proof.
  unfold prepareForSave. destruct (pages doc) as [|p ps] eqn:Hp; simpl.
  - by rewrite Hp.
  - by rewrite Hp.
Qed.
End Merge.

(** C1, as the code has it.  When every file of the resolved sequence can
    be processed, the merge produces one document and saves it.  The
    pages of the merged document are the concatenation, in sequence
    order, of one run per file: for a file of the PDF branch the pages of
    the parsed file, in their order and as parsed; for any other file the
    first page of the document pdf-lib loads back from what [imageToPdf]
    built and saved for it.  The page count is the sum of the runs'
    lengths.  What is written out is that document made ready by pdf-lib:
    the same pages when there is at least one, and one empty A4 page when
    no file contributed a page. *)
Theorem merge_concatenates (L : Libs) (files : list File) (w : World) :
  Forall (fun f => exists run, contribution L w f = Ok run) files ->
  exists doc w' runs bytes w'',
    merge L files w = (Ok doc, w') /\
    Forall2 (fun f run =>
               contribution L w f = Ok run /\
               if is_pdf f
               then exists b src, fs w !! file_path f = Some b /\
                                  PDFDocument_load L b = Ok src /\ run = pages src
               else exists built w1 imagePdf page rest,
                      imageToPdf_doc L (file_path f) w = (Ok built, w1) /\
                      PDFDocument_load L (PDFDocument_save L built) = Ok imagePdf /\
                      pages imagePdf = page :: rest /\ run = [page])
            files runs /\
    pages doc = concat runs /\
    length (pages doc) = sum_list (length <$> runs) /\
    save L doc w' = (Ok bytes, w'') /\
    bytes = serializeToBuffer L (prepareForSave doc) /\
    (concat runs <> [] -> pages (prepareForSave doc) = concat runs) /\
    (concat runs = [] -> pages (prepareForSave doc) = [default_page]).
Proof.
  intros Hall.
  destruct (merge_loop L files {| creationDate := now w; pages := [] |} (emit PdfCreate w))
    as (runs & w' & Hloop & Hruns & _).
  { eapply Forall_impl; [exact Hall|]. intros f [run Hrun]. exists run.
    by rewrite (contribution_reads L (emit PdfCreate w) w f). }
  set (doc := {| creationDate := now w; pages := concat runs |}).
  exists doc, w', runs, (serializeToBuffer L (prepareForSave doc)), (emit PdfSave w').
  split; [exact Hloop|]. split; [|split; [done|split]].
  - eapply Forall2_impl; [exact Hruns|]. intros f run Hc. simpl in Hc.
    rewrite (contribution_reads L (emit PdfCreate w) w f) in Hc by done.
    split; [done|]. destruct (is_pdf f) eqn:Hp.
    + by apply (contribution_pdf L w f run).
    + by apply (contribution_image_page L w f run).
  - simpl. clear. induction runs as [|r runs IH]; simpl; [done|].
    by rewrite length_app, IH.
  - split; [apply save_spec|]. split; [done|].
    exact (prepareForSave_pages doc).
Qed.

Lemma merge_concatenates_witness :
  Forall (fun f => exists run, contribution Toy.libs Toy.world1 f = Ok run) Toy.files /\
  exists doc w' runs bytes w'',
    merge Toy.libs Toy.files Toy.world1 = (Ok doc, w') /\
    Forall2 (fun f run =>
               contribution Toy.libs Toy.world1 f = Ok run /\
               if is_pdf f
               then exists b src, fs Toy.world1 !! file_path f = Some b /\
                                  PDFDocument_load Toy.libs b = Ok src /\ run = pages src
               else exists built w1 imagePdf page rest,
                      imageToPdf_doc Toy.libs (file_path f) Toy.world1 = (Ok built, w1) /\
                      PDFDocument_load Toy.libs (PDFDocument_save Toy.libs built)
                      = Ok imagePdf /\
                      pages imagePdf = page :: rest /\ run = [page])
            Toy.files runs /\
    pages doc = concat runs /\
    length (pages doc) = sum_list (length <$> runs) /\
    save Toy.libs doc w' = (Ok bytes, w'') /\
    bytes = serializeToBuffer Toy.libs (prepareForSave doc) /\
    (concat runs <> [] -> pages (prepareForSave doc) = concat runs) /\
    (concat runs = [] -> pages (prepareForSave doc) = [default_page]).
Proof.
  assert (H : Forall (fun f => exists run, contribution Toy.libs Toy.world1 f = Ok run)
                Toy.files).
  { unfold Toy.files.
    repeat (constructor; [eexists; vm_compute; reflexivity|]). constructor. }
  split; [exact H|]. exact (merge_concatenates Toy.libs Toy.files Toy.world1 H).
Defined.

(** C1 fails as stated.  A document without pages is parsed and merged
    as any other; the sum of the inputs' page counts is then zero, and
    the document written out has one page, the empty page pdf-lib adds to
    a document without pages when it saves it. *)
Lemma page_less_input_gets_a_page :
  Forall (fun f => is_pdf f = true /\ contribution Toy.libs Toy.blank_world f = Ok [])
    Toy.blank_files /\
  Toy.blank_files <> [] /\
  exists doc w' bytes w'' out,
    merge Toy.libs Toy.blank_files Toy.blank_world = (Ok doc, w') /\
    pages doc = [] /\
    save Toy.libs doc w' = (Ok bytes, w'') /\
    bytes = serializeToBuffer Toy.libs (prepareForSave doc) /\
    pages (prepareForSave doc) = [default_page] /\
    PDFDocument_load Toy.libs bytes = Ok out /\
    length (pages out) = 1.
Proof.
  split.
  { unfold Toy.blank_files. constructor; [split; vm_compute; reflexivity | constructor]. }
  split; [discriminate|].
  eexists _, _, _, _, _.
  split; [vm_compute; reflexivity|]. split; [reflexivity|].
  split; [reflexivity|]. split; [reflexivity|]. split; [reflexivity|].
  split; vm_compute; reflexivity.
Qed.

(** A two-page document, an image and a one-page document merge into four
    pages: the two pages, the image page, the last page. *)
Example merge_2_1_1 :
  match merge Toy.libs Toy.files Toy.world1 with
  | (Ok doc, _) =>
      pages doc =
        [ Toy.page_of_byte Byte.x41; Toy.page_of_byte Byte.x42;
          Toy.page_of_byte Byte.x01; Toy.page_of_byte Byte.x43 ]
  | _ => False
  end.
Proof. vm_compute. reflexivity. Qed.

(** ** Failure of one file *)

Section Failure.
Context (L : Libs).


(** The [catch] of the handler: the uploads are removed, each removal
    guarded, and the answer is 500 with the message of the error. *)
Lemma handler_catch req w e w1 :
  merge_try L req w = (Throw e, w1) ->
  exists evs w',
    merge_handler L req w = (Ok (Json 500 (or_string e "Failed to merge files")), w') /\
    trace w' = trace w1 ++ evs /\ writes evs = [] /\
    removals evs = file_path <$> default [] (req_files req) /\
    fs w' ⊆ fs w1 /\ timers w' = timers w1 /\ locked w' = locked w1.
Proof.
  intros Htry. unfold merge_handler, try_catch. rewrite Htry.
  unfold bind at 1. unfold log at 1. cbv beta iota.
  unfold bind at 1.
  destruct (req_files req) as [files|]; simpl.
  - destruct (for_of_guarded_remove file_path files
                (emit (ConsoleError ("Merge error: " ++ e)%string) w1))
      as (evs & w' & Hrun & Htr & Hrm & Hwr & Hlk & Htm & Hfs).
    unfold cleanup. rewrite Hrun. simpl.
    exists (ConsoleError ("Merge error: " ++ e)%string :: evs), w'.
    split; [done|]. rewrite Htr. simpl. rewrite <- app_assoc. simpl.
    repeat split; done.
  - exists [ConsoleError ("Merge error: " ++ e)%string], (emit (ConsoleError ("Merge error: " ++ e)%string) w1).
    repeat split; done.
Qed.

End Failure.



(** The request with the unreadable [bad.pdf]: the answer names it, and
    the disk is empty afterwards. *)
Example bad_pdf_is_named :
  let r := merge_handler Toy.libs {| body_order := None; req_files := Some Toy.bad_files |}
             Toy.bad_world in
  fst r = Ok (Json 500 "Failed to process bad.pdf") /\ fs (snd r) = ∅.
Proof. vm_compute. split; reflexivity. Qed.

(** ** The page [imageToPdf] makes *)

Lemma div_nan_is_nan (x : float) : PrimFloat.is_nan (x / nan)%float = true.
Proof.
  unfold PrimFloat.is_nan. rewrite FloatAxioms.eqb_spec, FloatAxioms.div_spec.
  replace (Prim2SF nan) with S754_nan by reflexivity.
  unfold SF64div, SFdiv. destruct (Prim2SF x); reflexivity.
Qed.

(** Without a density the quotient is [NaN], which is falsy: the dimension
    is the fallback 72, whatever the pixel count. *)
Lemma page_dim_without_density (dim : number) : page_dim dim None = 72%float.
Proof.
  unfold page_dim, or_number, truthy, ToNumber. by rewrite div_nan_is_nan.
Qed.

(** At 72 pixels per inch, 200 pixels are 200 points. *)
Example page_dim_200_at_72 : page_dim 200%float (Some 72%float) = 200%float.
Proof. vm_compute. reflexivity. Qed.

(** At 300 pixels per inch, 200 pixels are 48 points. *)
Example page_dim_200_at_300 : page_dim 200%float (Some 300%float) = 48%float.
Proof. vm_compute. reflexivity. Qed.

Section Image.
Context (L : Libs).

(** The document [imageToPdf] builds from a readable image: one page, of
    the computed size, with the image drawn from the origin over the
    whole page. *)
Lemma imageToPdf_doc_ok imagePath w b md img :
  fs w !! imagePath = Some b ->
  sharp_metadata L b = Ok md ->
  match codec_of imagePath with
  | PNG => embedPng L b
  | JPG => embedJpg L b
  end = Ok img ->
  fst (imageToPdf_doc L imagePath w) =
    Ok {| creationDate := now w;
          pages := [ {| page_width := page_dim (width md) (density md);
                        page_height := page_dim (height md) (density md);
                        page_ops := [DrawImage img 0%float 0%float
                                       (page_dim (width md) (density md))
                                       (page_dim (height md) (density md))] |} ] |}.
Proof.
  intros Hb Hmd Himg. unfold codec_of in Himg.
  unfold imageToPdf_doc, bind, fs_readFile, metadata_of, PDFDocument_create,
    bind, log, lift. simpl. rewrite Hb, Hmd. simpl.
  destruct (String.eqb _ ".png"); simpl; rewrite Himg; reflexivity.
Qed.
End Image.

(** C4, as the code has it.  An image whose metadata carries no density
    gets a page of 72 by 72 points whatever its pixel size, with the image
    drawn at the origin over those 72 by 72 points: in
    [metadata.width * 72 / metadata.density || 72] the fallback applies to
    the quotient, not to the density. *)
Theorem image_without_density_is_72_square
    (L : Libs) (imagePath : string) (w : World) (b : bytes) (md : Metadata)
    (img : PDFImage) :
  fs w !! imagePath = Some b ->
  sharp_metadata L b = Ok md ->
  density md = None ->
  match codec_of imagePath with
  | PNG => embedPng L b
  | JPG => embedJpg L b
  end = Ok img ->
  fst (imageToPdf_doc L imagePath w) =
    Ok {| creationDate := now w;
          pages := [ {| page_width := 72%float; page_height := 72%float;
                        page_ops := [DrawImage img 0%float 0%float 72%float 72%float] |} ] |}.
Proof.
  intros Hb Hmd Hdens Himg.
  rewrite (imageToPdf_doc_ok L imagePath w b md img Hb Hmd Himg).
  by rewrite Hdens, !page_dim_without_density.
Qed.

Lemma image_without_density_is_72_square_witness :
  let p := "/srv/uploads/temp/u1-b.png" in
  let md := {| width := 200%float; height := 100%float; density := None |} in
  let img := {| image_codec := PNG; image_data := Toy.png_200x100 |} in
  (fs Toy.world1 !! p = Some Toy.png_200x100 /\
   sharp_metadata Toy.libs Toy.png_200x100 = Ok md /\
   density md = None /\
   match codec_of p with
   | PNG => embedPng Toy.libs Toy.png_200x100
   | JPG => embedJpg Toy.libs Toy.png_200x100
   end = Ok img) /\
  fst (imageToPdf_doc Toy.libs p Toy.world1) =
    Ok {| creationDate := now Toy.world1;
          pages := [ {| page_width := 72%float; page_height := 72%float;
                        page_ops := [DrawImage img 0%float 0%float 72%float 72%float] |} ] |}.
Proof.
  intros p md img.
  assert (H1 : fs Toy.world1 !! p = Some Toy.png_200x100) by (vm_compute; reflexivity).
  assert (H2 : sharp_metadata Toy.libs Toy.png_200x100 = Ok md) by (vm_compute; reflexivity).
  assert (H3 : density md = None) by reflexivity.
  assert (H4 : match codec_of p with
               | PNG => embedPng Toy.libs Toy.png_200x100
               | JPG => embedJpg Toy.libs Toy.png_200x100
               end = Ok img) by (vm_compute; reflexivity).
  split; [by repeat split|].
  exact (image_without_density_is_72_square Toy.libs p Toy.world1 Toy.png_200x100 md img
           H1 H2 H3 H4).
Defined.


(** ** Dispatch on the extension *)

Ltac trace_eq :=
  unfold emit; simpl; rewrite <- ?app_assoc; simpl; reflexivity.

(** An event that differs from every event of an explicit list. *)
Ltac absent :=
  repeat split;
  repeat (apply not_elem_of_cons; split; [discriminate|]); apply not_elem_of_nil.

(** C10. The turn of the loop for a readable file does not depend on the
    declared MIME type.  When the lowercased extension of the original
    name is [.pdf] the file bytes go to [PDFDocument.load], and sharp and
    the embedding calls are never made; otherwise the bytes go to sharp.
    In [imageToPdf] the extension of the path alone selects the codec:
    [.png] never calls [embedJpg], any other extension never calls
    [embedPng], and once the metadata is read the call made is the one
    the extension selects. *)
Theorem dispatch_by_extension
    (L : Libs) (doc : PDFDocument) (f : File) (w : World) (b : bytes) :
  fs w !! file_path f = Some b ->
  (forall m, merge_file L doc (with_mimetype m f) w = merge_file L doc f w) /\
  exists evs,
    trace (snd (merge_file L doc f w)) = trace w ++ evs /\
    if String.eqb (toLowerCase (path.extname (originalname f))) ".pdf" then
      (exists rest, evs = [FsRead (file_path f); PdfLoad] ++ rest) /\
      (SharpMetadata ∉ evs) /\ (PdfEmbedPng ∉ evs) /\ (PdfEmbedJpg ∉ evs)
    else
      (exists rest, evs = [FsRead (file_path f); SharpMetadata] ++ rest) /\
      (if String.eqb (toLowerCase (path.extname (file_path f))) ".png"
       then (PdfEmbedJpg ∉ evs) else (PdfEmbedPng ∉ evs)) /\
      (forall md, sharp_metadata L b = Ok md ->
         exists rest,
           evs = [FsRead (file_path f); SharpMetadata; PdfCreate;
                  embed_event (codec_of (file_path f))] ++ rest).
Proof.
  intros Hb. split; [reflexivity|].
  unfold merge_file, try_catch, codec_of.
  destruct (String.eqb (toLowerCase (path.extname (originalname f))) ".pdf").
  - unfold fs_readFile, load, bind, log, lift, throw, ret. simpl. rewrite Hb.
    destruct (PDFDocument_load L b) as [src|e]; simpl.
    + exists [FsRead (file_path f); PdfLoad]. split; [trace_eq|].
      split; [by exists []|]. absent.
    + eexists [FsRead (file_path f); PdfLoad; ConsoleError _]. split; [trace_eq|].
      split; [by eexists [_]|]. absent.
  - unfold imageToPdf, imageToPdf_doc, fs_readFile, metadata_of, PDFDocument_create,
      save, load, copyFirstPage, bind, log, lift, throw, ret. simpl. rewrite Hb.
    destruct (sharp_metadata L b) as [md|e]; simpl.
    + destruct (String.eqb (toLowerCase (path.extname (file_path f))) ".png"); simpl.
      * destruct (embedPng L b) as [img|e]; simpl;
          [destruct (PDFDocument_load L _) as [[c ps]|e]; simpl; [destruct ps; simpl|]|];
          (eexists; split; [trace_eq|];
           split; [by eexists|]; split; [absent|];
           intros md' [= <-]; by eexists).
      * destruct (embedJpg L b) as [img|e]; simpl;
          [destruct (PDFDocument_load L _) as [[c ps]|e]; simpl; [destruct ps; simpl|]|];
          (eexists; split; [trace_eq|];
           split; [by eexists|]; split; [absent|];
           intros md' [= <-]; by eexists).
    + eexists [FsRead (file_path f); SharpMetadata; ConsoleError _]. split; [trace_eq|].
      split; [by eexists [_]|].
      split; [destruct (String.eqb _ ".png"); absent|]. intros md' [=].
Qed.

Lemma dispatch_by_extension_witness :
  let f := {| originalname := "b.png"; mimetype := "image/png"; size := 4;
              filename := "u1-b.png"; file_path := "/srv/uploads/temp/u1-b.png" |} in
  let w := Toy.world1 in
  let b := Toy.png_200x100 in
  fs w !! file_path f = Some b /\
  ((forall m, merge_file Toy.libs empty_doc (with_mimetype m f) w
              = merge_file Toy.libs empty_doc f w) /\
   exists evs,
     trace (snd (merge_file Toy.libs empty_doc f w)) = trace w ++ evs /\
     if String.eqb (toLowerCase (path.extname (originalname f))) ".pdf" then
       (exists rest, evs = [FsRead (file_path f); PdfLoad] ++ rest) /\
       (SharpMetadata ∉ evs) /\ (PdfEmbedPng ∉ evs) /\ (PdfEmbedJpg ∉ evs)
     else
       (exists rest, evs = [FsRead (file_path f); SharpMetadata] ++ rest) /\
       (if String.eqb (toLowerCase (path.extname (file_path f))) ".png"
        then (PdfEmbedJpg ∉ evs) else (PdfEmbedPng ∉ evs)) /\
       (forall md, sharp_metadata Toy.libs b = Ok md ->
          exists rest,
            evs = [FsRead (file_path f); SharpMetadata; PdfCreate;
                   embed_event (codec_of (file_path f))] ++ rest)).
Proof.
  intros f w b.
  assert (H : fs w !! file_path f = Some b) by (vm_compute; reflexivity).
  split; [exact H|].
  exact (dispatch_by_extension Toy.libs empty_doc f w b H).
Defined.

(** The extension decides, in any letter case; the declared type does not
    enter.  A name that is only an extension has none. *)
Example is_pdf_examples :
  let named n m := {| originalname := n; mimetype := m; size := 0;
                      filename := ("u0-" ++ n)%string;
                      file_path := ("/srv/uploads/temp/u0-" ++ n)%string |} in
  is_pdf (named "scan.PDF" "image/png") = true /\
  is_pdf (named "photo.png" "application/pdf") = false /\
  is_pdf (named "archive.pdf.jpg" "application/pdf") = false /\
  is_pdf (named "report" "application/pdf") = false /\
  is_pdf (named ".pdf" "application/pdf") = false /\
  codec_of (file_path (named "photo.PNG" "image/jpeg")) = PNG /\
  codec_of (file_path (named "photo.webp" "image/webp")) = JPG /\
  codec_of (file_path (named "photo.jpeg" "image/png")) = JPG.
Proof. vm_compute. repeat split; reflexivity. Qed.

(** ** Ordering *)

Section Resolve.
Context {I : Type} (P : I -> File -> bool).

(** [ids.map(id => files.find(P id)).filter(Boolean)] *)
Let sorted (ids : list I) (files : list File) : list File :=
  omap (fun id => List.find (P id) files) ids.

(** Whether some identifier names the file. *)
Let named (ids : list I) (f : File) : bool := existsb (fun id => P id f) ids.

Lemma filter_complement (q : File -> bool) (l : list File) :
  List.filter q l ++ List.filter (fun f => negb (q f)) l ≡ₚ l.
Proof.
  induction l as [|x l IH]; simpl; [done|].
  destruct (q x); simpl.
  - by rewrite IH.
  - by rewrite <- Permutation_middle, IH.
Qed.

Lemma filter_or_disjoint (p q : File -> bool) (l : list File) :
  (forall f, In f l -> p f = true -> q f = true -> False) ->
  List.filter (fun f => p f || q f) l ≡ₚ List.filter p l ++ List.filter q l.
Proof.
  induction l as [|x l IH]; intros Hdis; simpl; [done|].
  assert (IH' : List.filter (fun f => p f || q f) l ≡ₚ List.filter p l ++ List.filter q l).
  { apply IH. intros f Hf. apply Hdis. by right. }
  destruct (p x) eqn:Hp, (q x) eqn:Hq; simpl.
  - exfalso. apply (Hdis x); [by left|done..].
  - by rewrite IH'.
  - by rewrite <- Permutation_middle, IH'.
  - done.
Qed.

Lemma named_filter_nonempty ids f :
  named ids f = true -> List.filter (fun id => P id f) ids <> [].
Proof.
  unfold named. induction ids as [|id ids IH]; simpl; [done|].
  destruct (P id f); [done|]. simpl. exact IH.
Qed.

(** When no file is named twice and no identifier names two files, the
    files found are, up to order, the files named. *)
Lemma sorted_perm_named ids files :
  Forall (fun f => length (List.filter (fun id => P id f) ids) <= 1) files ->
  Forall (fun id => length (List.filter (P id) files) <= 1) ids ->
  sorted ids files ≡ₚ List.filter (named ids) files.
Proof.
  unfold sorted, named.
  induction ids as [|id ids IH]; intros H1 H2.
  - simpl. clear. induction files as [|f files IHf]; simpl; done.
  - inversion H2 as [|? ? Hid H2']; subst.
    assert (H1' : Forall (fun f => length (List.filter (fun id => P id f) ids) <= 1) files).
    { eapply Forall_impl; [exact H1|]. intros f Hf. simpl in Hf.
      destruct (P id f); simpl in Hf; lia. }
    specialize (IH H1' H2'). simpl.
    destruct (List.find (P id) files) as [f0|] eqn:Hfind.
    + apply find_some in Hfind as [Hin Hp].
      assert (Hone : List.filter (P id) files = [f0]).
      { assert (Hmem : In f0 (List.filter (P id) files)) by (by apply filter_In).
        destruct (List.filter (P id) files) as [|a [|b l]]; simpl in *;
          [done | by destruct Hmem as [->|[]] | lia]. }
      rewrite (filter_or_disjoint (P id) (fun f => existsb (fun id0 => P id0 f) ids)).
      * rewrite Hone. simpl. by rewrite IH.
      * intros f Hf Hpf Hnf.
        rewrite Forall_forall in H1. apply list_elem_of_In in Hf.
        specialize (H1 f Hf). simpl in H1. rewrite Hpf in H1. simpl in H1.
        pose proof (named_filter_nonempty ids f Hnf) as Hne.
        destruct (List.filter (fun id0 => P id0 f) ids); [done|simpl in H1; lia].
    + rewrite IH. apply Permutation_refl'.
      apply filter_ext_in. intros f Hf.
      by rewrite (find_none _ _ Hfind f Hf).
Qed.

(** The files found come in the order of the identifiers that found
    them, each a received file named by its identifier. *)
Lemma sorted_in_descriptor_order ids files :
  exists ids',
    sublist ids' ids /\
    Forall2 (fun id f => f ∈ files /\ P id f = true) ids' (sorted ids files).
Proof.
  unfold sorted. induction ids as [|id ids (ids' & Hsub & Hall)]; simpl.
  - exists []. split; constructor.
  - destruct (List.find (P id) files) as [f0|] eqn:Hfind.
    + exists (id :: ids'). split; [by constructor|].
      apply find_some in Hfind as [Hin Hp]. constructor; [|done].
      split; [by apply list_elem_of_In | done].
    + exists ids'. split; [by constructor | done].
Qed.

(** With no identifier that names two files and no file named twice, the
    resolved sequence is a rearrangement of the files received. *)
Lemma resolved_perm ids files :
  Forall (fun f => length (List.filter (fun id => P id f) ids) <= 1) files ->
  Forall (fun id => length (List.filter (P id) files) <= 1) ids ->
  sorted ids files ++ List.filter (fun f => negb (named ids f)) files ≡ₚ files.
Proof.
  intros H1 H2. rewrite (sorted_perm_named ids files H1 H2).
  apply filter_complement.
Qed.
End Resolve.

Section Descriptor.
Context (L : Libs).

Lemma Array_map_cons {A B} (f : A -> result B) (x : A) (l : list A) :
  Array_map f (x :: l) = let? y := f x in let? ys := Array_map f l in Ok (y :: ys).
Proof. reflexivity. Qed.

Lemma Array_map_app {A B} (f : A -> result B) (l1 l2 : list A) :
  Array_map f (l1 ++ l2) =
    let? ys1 := Array_map f l1 in let? ys2 := Array_map f l2 in Ok (ys1 ++ ys2).
Proof.
  induction l1 as [|x l1 IH]; simpl.
  - by destruct (Array_map f l2).
  - destruct (f x) as [y|e]; simpl; [|done]. rewrite IH.
    destruct (Array_map f l1) as [ys1|e]; simpl; [|done].
    by destruct (Array_map f l2).
Qed.

Lemma Array_map_strings (ids : list string) :
  Array_map (ToString L) (JStr <$> ids) = Ok ids.
Proof.
  induction ids as [|id ids IH]; [done|].
  rewrite fmap_cons. simpl. rewrite IH. done.
Qed.

(** With an entry that converts, [find] is the search for the files
    whose name starts with the converted entry. *)
Lemma Array_find_converted id s files :
  ToString L id = Ok s ->
  Array_find (named_by L id) files
  = Ok (List.find (fun f => startsWith (filename f) s) files).
Proof.
  intros Hs. induction files as [|f files IH]; [done|].
  simpl. unfold named_by at 1. rewrite Hs. simpl.
  destruct (startsWith (filename f) s); [done | exact IH].
Qed.

Lemma Array_some_converted orderArray ids f :
  Array_map (ToString L) orderArray = Ok ids ->
  Array_some (fun id => named_by L id f) orderArray
  = Ok (existsb (fun id => startsWith (filename f) id) ids).
Proof.
  revert ids. induction orderArray as [|id orderArray IH]; intros ids; simpl.
  - by intros [= <-].
  - unfold named_by at 1. destruct (ToString L id) as [s|e]; simpl; [|done].
    destruct (Array_map (ToString L) orderArray) as [ids'|e]; simpl; [|done].
    intros [= <-]. simpl. destruct (startsWith (filename f) s); [done|].
    by apply IH.
Qed.

(** When every entry converts, the files found and the files left are
    those of the converted entries. *)
Lemma sortedFiles_converted orderArray ids files :
  Array_map (ToString L) orderArray = Ok ids ->
  sortedFiles L orderArray files =
    Ok (omap (fun id => List.find (fun f => startsWith (filename f) id) files) ids).
Proof.
  unfold sortedFiles.
  revert ids. induction orderArray as [|id orderArray IH]; intros ids; simpl.
  - by intros [= <-].
  - destruct (ToString L id) as [s|e] eqn:Hs; simpl; [|done].
    destruct (Array_map (ToString L) orderArray) as [ids'|e]; simpl; [|done].
    intros [= <-]. rewrite (Array_find_converted id s files Hs). simpl.
    specialize (IH ids' eq_refl).
    destruct (Array_map (fun id0 => Array_find (named_by L id0) files) orderArray)
      as [found|e]; simpl in *; [|done].
    injection IH as IH. simpl.
    destruct (List.find (fun f => startsWith (filename f) s) files);
      [do 2 f_equal | f_equal]; exact IH.
Qed.

Lemma remainingFiles_converted orderArray ids files :
  Array_map (ToString L) orderArray = Ok ids ->
  remainingFiles L orderArray files =
    Ok (List.filter (fun f => negb (existsb (fun id => startsWith (filename f) id) ids))
          files).
Proof.
  intros Hids. unfold remainingFiles.
  induction files as [|f files IH]; [done|].
  simpl. rewrite (Array_some_converted orderArray ids f Hids). simpl.
  rewrite IH. simpl.
  by destruct (existsb (fun id => startsWith (filename f) id) ids).
Qed.

Lemma allFiles_converted orderArray ids files :
  Array_map (ToString L) orderArray = Ok ids ->
  allFiles L orderArray files =
    Ok (omap (fun id => List.find (fun f => startsWith (filename f) id) files) ids ++
        List.filter (fun f => negb (existsb (fun id => startsWith (filename f) id) ids))
          files).
Proof.
  intros Hids. unfold allFiles.
  by rewrite (sortedFiles_converted _ _ _ Hids), (remainingFiles_converted _ _ _ Hids).
Qed.

(** With files to search, the first entry that does not convert ends the
    resolution: [find] calls [startsWith] on the first file. *)
Lemma sortedFiles_throws orderArray files e :
  files <> [] ->
  Array_map (ToString L) orderArray = Throw e ->
  sortedFiles L orderArray files = Throw e.
Proof.
  intros Hne. destruct files as [|f0 files]; [done|].
  unfold sortedFiles. set (fl := f0 :: files).
  induction orderArray as [|id orderArray IH]; [done|].
  change (Array_map (ToString L) (id :: orderArray))
    with (let? y := ToString L id in
          let? ys := Array_map (ToString L) orderArray in Ok (y :: ys)).
  change (Array_map (fun id0 => Array_find (named_by L id0) fl) (id :: orderArray))
    with (let? y := Array_find (named_by L id) fl in
          let? ys := Array_map (fun id0 => Array_find (named_by L id0) fl) orderArray in
          Ok (y :: ys)).
  destruct (ToString L id) as [s|e0] eqn:Hs; cbn [bind_result].
  - rewrite (Array_find_converted id s fl Hs). cbn [bind_result].
    destruct (Array_map (ToString L) orderArray) as [ids'|e1]; cbn [bind_result]; [done|].
    intros [= ->]. specialize (IH eq_refl).
    destruct (Array_map (fun id0 => Array_find (named_by L id0) fl) orderArray)
      as [found|e1]; cbn [bind_result] in *; [done|exact IH].
  - intros [= ->]. unfold fl. simpl. unfold named_by at 1. by rewrite Hs.
Qed.

Lemma allFiles_throws orderArray files e :
  files <> [] ->
  Array_map (ToString L) orderArray = Throw e ->
  allFiles L orderArray files = Throw e.
Proof.
  intros Hne He. unfold allFiles. by rewrite (sortedFiles_throws _ _ _ Hne He).
Qed.

(** Without files nothing is searched, and no entry is converted. *)
Lemma allFiles_no_files orderArray : allFiles L orderArray [] = Ok [].
Proof.
  unfold allFiles, sortedFiles, remainingFiles.
  assert (H : exists found, Array_map (fun id => Array_find (named_by L id) []) orderArray
                            = Ok found /\ omap (fun f : option File => f) found = []).
  { induction orderArray as [|id orderArray (found & Hfound & Hnone)].
    - by exists [].
    - exists (None :: found). split; [|done].
      rewrite Array_map_cons, Hfound. reflexivity. }
  destruct H as (found & -> & Hnone). simpl. by rewrite Hnone.
Qed.

Lemma sortedFiles_strings (ids : list string) files :
  sortedFiles L (JStr <$> ids) files =
    Ok (omap (fun id => List.find (fun f => startsWith (filename f) id) files) ids).
Proof. apply sortedFiles_converted, Array_map_strings. Qed.

Lemma allFiles_strings (ids : list string) files :
  allFiles L (JStr <$> ids) files =
    Ok (omap (fun id => List.find (fun f => startsWith (filename f) id) files) ids ++
        List.filter (fun f => negb (existsb (fun id => startsWith (filename f) id) ids))
          files).
Proof. apply allFiles_converted, Array_map_strings. Qed.
End Descriptor.

(** C2, as the code has it.  For a descriptor of identifier strings in
    which no received file is named by two entries and no entry names two
    received files, the resolution yields a sequence that is a
    rearrangement of the received files, each exactly as often as
    received: first the files found by the entries, in descriptor order,
    each named by its entry; then the files no entry names, in receipt
    order. *)
Theorem resolved_sequence_when_unambiguous
    (L : Libs) (ids : list string) (files : list File) :
  Forall (fun f => length (List.filter (fun id => startsWith (filename f) id) ids) <= 1)
    files ->
  Forall (fun id => length (List.filter (fun f => startsWith (filename f) id) files) <= 1)
    ids ->
  exists seq found,
    allFiles L (JStr <$> ids) files = Ok seq /\
    sortedFiles L (JStr <$> ids) files = Ok found /\
    seq ≡ₚ files /\
    exists ids',
      sublist ids' ids /\
      Forall2 (fun id f => f ∈ files /\ startsWith (filename f) id = true) ids' found /\
      seq =
        found ++
        List.filter (fun f => negb (existsb (fun id => startsWith (filename f) id) ids))
          files.
Proof.
  intros H1 H2. eexists _, _.
  split; [apply allFiles_strings|]. split; [apply sortedFiles_strings|]. split.
  - exact (resolved_perm (fun id f => startsWith (filename f) id) ids files H1 H2).
  - destruct (sorted_in_descriptor_order (fun id f => startsWith (filename f) id) ids files)
      as (ids' & Hsub & Hall).
    exists ids'. done.
Qed.

Lemma resolved_sequence_when_unambiguous_witness :
  let ids := ["u2"; "nobody"; "u0"] in
  (Forall (fun f => length (List.filter (fun id => startsWith (filename f) id) ids) <= 1)
     Toy.files /\
   Forall (fun id => length (List.filter (fun f => startsWith (filename f) id) Toy.files) <= 1)
     ids) /\
  exists seq found,
    allFiles Toy.libs (JStr <$> ids) Toy.files = Ok seq /\
    sortedFiles Toy.libs (JStr <$> ids) Toy.files = Ok found /\
    seq ≡ₚ Toy.files /\
    exists ids',
      sublist ids' ids /\
      Forall2 (fun id f => f ∈ Toy.files /\ startsWith (filename f) id = true) ids' found /\
      seq =
        found ++
        List.filter (fun f => negb (existsb (fun id => startsWith (filename f) id) ids))
          Toy.files.
Proof.
  intros ids.
  assert (H1 : Forall (fun f => length (List.filter (fun id => startsWith (filename f) id)
                                          ids) <= 1) Toy.files).
  { unfold Toy.files. repeat (constructor; [vm_compute; lia|]). constructor. }
  assert (H2 : Forall (fun id => length (List.filter (fun f => startsWith (filename f) id)
                                           Toy.files) <= 1) ids).
  { repeat (constructor; [vm_compute; lia|]). constructor. }
  split; [by split|].
  exact (resolved_sequence_when_unambiguous Toy.libs ids Toy.files H1 H2).
Defined.

(** The descriptor [u2, nobody, u0] over the three stored files: the third
    file, the first, then the one the descriptor leaves out. *)
Example resolve_u2_u0 :
  exists seq,
    allFiles Toy.libs (JStr <$> ["u2"; "nobody"; "u0"]) Toy.files = Ok seq /\
    originalname <$> seq = ["c.pdf"; "a.pdf"; "b.png"].
Proof. eexists. split; vm_compute; reflexivity. Qed.

(** C2 fails as stated.  An entry that is a prefix of several storage
    names finds the first of them only, and the others, being named, are
    not appended: the descriptor [u] keeps one of three files.  An entry
    repeated finds its file again: the descriptor [u0, u0] yields four
    files from three. *)
Lemma resolved_sequence_drops_and_repeats :
  (exists seq,
     allFiles Toy.libs (JStr <$> ["u"]) Toy.files = Ok seq /\
     originalname <$> seq = ["a.pdf"] /\
     ~ (seq ≡ₚ Toy.files)) /\
  (exists seq,
     allFiles Toy.libs (JStr <$> ["u0"; "u0"]) Toy.files = Ok seq /\
     originalname <$> seq = ["a.pdf"; "a.pdf"; "b.png"; "c.pdf"] /\
     ~ (seq ≡ₚ Toy.files)).
Proof.
  split; eexists; (split; [vm_compute; reflexivity|]);
    (split; [vm_compute; reflexivity|]);
    intros H; apply Permutation_length in H; vm_compute in H; discriminate.
Qed.

(** ** The descriptor as received *)

Section DescriptorText.
Context (L : Libs).

(** An empty descriptor leaves the files in receipt order. *)
Lemma allFiles_nil files : allFiles L [] files = Ok files.
Proof.
  rewrite (allFiles_converted L [] [] files eq_refl). simpl. f_equal.
  induction files as [|f files IH]; simpl; [done|]. by rewrite IH.
Qed.

(** A descriptor that is not usable makes the resolution throw, when
    there are files to put in order. *)
Lemma resolve_order_throws order files :
  files <> [] ->
  ~ descriptor_ok L order -> exists e, resolve_order L order files = Throw e.
Proof.
  unfold descriptor_ok, resolve_order. intros Hne Hbad.
  destruct (JSON_parse (or_undefined order "[]")) as [v|e]; [|by eexists].
  destruct v as [| | | |elems|]; simpl; try by eexists.
  destruct (Array_map (ToString L) elems) as [ids|e] eqn:Hids.
  - exfalso. apply Hbad. by exists elems, ids.
  - exists e. by apply allFiles_throws.
Qed.

Lemma resolve_order_array order files elems :
  JSON_parse (or_undefined order "[]") = Ok (JArr elems) ->
  resolve_order L order files = allFiles L elems files.
Proof. unfold resolve_order. by intros ->. Qed.
End DescriptorText.

(** C5, as the code has it.  For a request with files: when the [order]
    field is absent, empty, or the JSON text of an array whose entries
    all convert to strings, the resolution yields a resolved sequence,
    the receipt order when the field is absent, empty or the empty array.
    Any other [order] field is not taken for an empty descriptor: the
    handler answers 500, having called [fs.remove] on every upload and
    written nothing. *)
Theorem descriptor_resolution
    (L : Libs) (req : Request) (files : list File) (w : World) :
  req_files req = Some files -> files <> [] ->
  (descriptor_ok L (body_order req) ->
     exists seq,
       resolve_order L (body_order req) files = Ok seq /\
       (body_order req = None \/ body_order req = Some "" \/
        body_order req = Some "[]" -> seq = files)) /\
  (~ descriptor_ok L (body_order req) ->
     exists msg evs w',
       merge_handler L req w = (Ok (Json 500 msg), w') /\
       trace w' = trace w ++ evs /\ writes evs = [] /\
       removals evs = file_path <$> files).
Proof.
  intros Hfiles Hne. split.
  - intros (elems & ids & Hparse & Hids).
    eexists. split.
    { rewrite (resolve_order_array L _ files elems Hparse).
      exact (allFiles_converted L elems ids files Hids). }
    intros Horder.
    assert (Hempty : JSON_parse (or_undefined (body_order req) "[]") = Ok (JArr []))
      by (by destruct Horder as [->|[->| ->]]).
    rewrite Hparse in Hempty. injection Hempty as ->. injection Hids as <-.
    simpl. clear. induction files as [|f files IH]; simpl; [done|]. by rewrite IH.
  - intros Hbad.
    destruct (resolve_order_throws L (body_order req) files Hne Hbad) as [e He].
    assert (Htry : merge_try L req w = (Throw e, w)).
    { unfold merge_try. rewrite Hfiles. destruct files as [|f0 fl]; [done|].
      unfold bind, lift. by rewrite He. }
    destruct (handler_catch L req w e w Htry)
      as (evs & w' & Hh & Htr & Hwr & Hrm & _).
    rewrite Hfiles in Hrm. by exists (or_string e "Failed to merge files"), evs, w'.
Qed.

Lemma descriptor_resolution_witness :
  let req := {| body_order := Some "[]"; req_files := Some Toy.files |} in
  let w := Toy.world1 in
  (req_files req = Some Toy.files /\ Toy.files <> []) /\
  (descriptor_ok Toy.libs (body_order req) ->
     exists seq,
       resolve_order Toy.libs (body_order req) Toy.files = Ok seq /\
       (body_order req = None \/ body_order req = Some "" \/
        body_order req = Some "[]" -> seq = Toy.files)) /\
  (~ descriptor_ok Toy.libs (body_order req) ->
     exists msg evs w',
       merge_handler Toy.libs req w = (Ok (Json 500 msg), w') /\
       trace w' = trace w ++ evs /\ writes evs = [] /\
       removals evs = file_path <$> Toy.files).
Proof.
  intros req w.
  assert (H1 : req_files req = Some Toy.files) by reflexivity.
  assert (H2 : Toy.files <> []) by discriminate.
  split; [by split|].
  exact (descriptor_resolution Toy.libs req Toy.files w H1 H2).
Defined.

(** C5 fails as stated.  An [order] field that is not JSON, or that is
    JSON but not an array, or an array with an entry that cannot be
    converted to a string (an object with a member [toString]), is not
    resolved as an empty descriptor: the resolution throws, and the
    request is answered 500.  An array of other values resolves: the
    entry [{}] converts to a string that names no file. *)
Lemma malformed_descriptor_fails_request :
  let run order :=
    merge_handler Toy.libs {| body_order := Some order; req_files := Some Toy.files |}
      Toy.world1 in
  let object_with_toString :=
    String.concat (String (ascii_of_nat 34) "") ["[{"; "toString"; ":1}]"] in
  (exists e, resolve_order Toy.libs (Some "[oops") Toy.files = Throw e) /\
  (exists msg, fst (run "[oops") = Ok (Json 500 msg)) /\
  (exists e, resolve_order Toy.libs (Some "{}") Toy.files = Throw e) /\
  fst (run "{}") = Ok (Json 500 "orderArray.map is not a function") /\
  JSON_parse object_with_toString = Ok (JArr [JObj [("toString", JNum "1")]]) /\
  resolve_order Toy.libs (Some object_with_toString) Toy.files
    = Throw "Cannot convert object to primitive value" /\
  fst (run object_with_toString)
    = Ok (Json 500 "Cannot convert object to primitive value") /\
  resolve_order Toy.libs (Some "[{}]") Toy.files = Ok Toy.files /\
  resolve_order Toy.libs (Some "[]") Toy.files = Ok Toy.files.
Proof.
  repeat split; try (eexists; vm_compute; reflexivity); vm_compute; reflexivity.
Qed.


(** ** The same inputs, merged twice *)

Section Repeat.
Context (L : Libs).

(** The loop computes [merge_runs] of the contributions. *)
Lemma merge_loop_runs files : forall doc w,
  fst (for_of_acc files (merge_file L) doc w) = merge_runs (contribution L w <$> files) doc.
Proof.
  induction files as [|f files IH]; intros doc w; [done|].
  pose proof (merge_file_acc L doc f w) as Hacc.
  destruct (merge_file_frame L doc f w) as [Hfs Hnow].
  simpl. unfold bind at 1.
  destruct (merge_file L doc f w) as [r w1]. simpl in *. subst r.
  destruct (contribution L w f) as [run|e]; [|done].
  rewrite IH. f_equal. apply list_fmap_ext. intros _ g _.
  by apply contribution_reads.
Qed.

Lemma merge_runs_pages rs : forall d1 d2,
  pages d1 = pages d2 ->
  match merge_runs rs d1, merge_runs rs d2 with
  | Ok d1', Ok d2' => pages d1' = pages d2'
  | Throw e1, Throw e2 => e1 = e2
  | _, _ => False
  end.
Proof.
  induction rs as [|[run|e] rs IH]; intros d1 d2 Hp; simpl; [done| |done].
  apply IH. simpl. by rewrite Hp.
Qed.

(** The same input contributes the same pages in both runs. *)
Lemma contribution_repeatable w1 w2 f1 f2 :
  reload_by_pages L -> same_input w1 w2 f1 f2 ->
  contribution L w1 f1 = contribution L w2 f2.
Proof.
  intros Hreload (Hname & Hbytes & Hcodec).
  unfold contribution, merge_file, try_catch. rewrite Hname.
  destruct (String.eqb (toLowerCase (path.extname (originalname f2))) ".pdf").
  - unfold fs_readFile, load, bind, log, lift, ret, throw. simpl. rewrite Hbytes.
    destruct (fs w2 !! file_path f2) as [b|]; simpl; [|done].
    destruct (PDFDocument_load L b); simpl; [|done].
    by rewrite !addPages_spec.
  - unfold codec_of in Hcodec.
    unfold imageToPdf, imageToPdf_doc, fs_readFile, metadata_of, PDFDocument_create,
      save, load, copyFirstPage, bind, log, lift, ret, throw. simpl. rewrite Hbytes.
    destruct (fs w2 !! file_path f2) as [b|]; simpl; [|done].
    destruct (sharp_metadata L b) as [md|]; simpl; [|done].
    destruct (String.eqb (toLowerCase (path.extname (file_path f1))) ".png"),
             (String.eqb (toLowerCase (path.extname (file_path f2))) ".png");
      try discriminate; simpl.
    + destruct (embedPng L b) as [img|]; simpl; [|done].
      match goal with
      | |- context [PDFDocument_load L (PDFDocument_save L ?d1)] =>
          match goal with
          | |- context [PDFDocument_load L (PDFDocument_save L ?d2)] =>
              lazymatch d1 with
              | d2 => fail
              | _ => pose proof (Hreload d1 d2 eq_refl) as Hsame
              end
          end
      end.
      unfold same_pages in Hsame.
      repeat match goal with
             | H : context [PDFDocument_load L ?x] |- _ =>
                 destruct (PDFDocument_load L x) as [[? [|? ?]]|]; simpl in *
             end; try done; by simplify_eq.
    + destruct (embedJpg L b) as [img|]; simpl; [|done].
      match goal with
      | |- context [PDFDocument_load L (PDFDocument_save L ?d1)] =>
          match goal with
          | |- context [PDFDocument_load L (PDFDocument_save L ?d2)] =>
              lazymatch d1 with
              | d2 => fail
              | _ => pose proof (Hreload d1 d2 eq_refl) as Hsame
              end
          end
      end.
      unfold same_pages in Hsame.
      repeat match goal with
             | H : context [PDFDocument_load L ?x] |- _ =>
                 destruct (PDFDocument_load L x) as [[? [|? ?]]|]; simpl in *
             end; try done; by simplify_eq.
Qed.
End Repeat.

(** C9. Two runs of the merge over the same inputs in the same order, each
    input with the same original name and the same bytes but stored under
    its own identifier, at different times and in worlds that differ in
    everything else, either both fail with the same message or both
    produce documents with the same pages in the same order.  The
    documents themselves may differ: each carries the creation date of its
    run. *)
Theorem merge_is_repeatable
    (L : Libs) (files1 files2 : list File) (w1 w2 : World) :
  reload_by_pages L ->
  Forall2 (same_input w1 w2) files1 files2 ->
  match fst (merge L files1 w1), fst (merge L files2 w2) with
  | Ok d1, Ok d2 => pages d1 = pages d2
  | Throw e1, Throw e2 => e1 = e2
  | _, _ => False
  end.
Proof.
  intros Hreload Hsame.
  assert (Hm : forall files w,
             fst (merge L files w) =
             merge_runs (contribution L w <$> files) {| creationDate := now w; pages := [] |}).
  { intros files w.
    change (fst (merge L files w))
      with (fst (for_of_acc files (merge_file L) {| creationDate := now w; pages := [] |}
                   (emit PdfCreate w))).
    rewrite merge_loop_runs. f_equal. apply list_fmap_ext. intros _ g _.
    by apply contribution_reads. }
  rewrite !Hm.
  assert (Hruns : contribution L w1 <$> files1 = contribution L w2 <$> files2).
  { induction Hsame as [|f1 f2 l1 l2 Hf _ IH]; [done|].
    rewrite !fmap_cons. f_equal; [|exact IH].
    exact (contribution_repeatable L w1 w2 f1 f2 Hreload Hf). }
  rewrite Hruns. by apply merge_runs_pages.
Qed.

Lemma merge_is_repeatable_witness :
  (reload_by_pages Toy.libs /\
   Forall2 (same_input Toy.world1 Toy.world_again) Toy.files Toy.files_again) /\
  match fst (merge Toy.libs Toy.files Toy.world1),
        fst (merge Toy.libs Toy.files_again Toy.world_again) with
  | Ok d1, Ok d2 => pages d1 = pages d2
  | Throw e1, Throw e2 => e1 = e2
  | _, _ => False
  end.
Proof.
  assert (H1 : reload_by_pages Toy.libs).
  { intros d d' Hp. unfold PDFDocument_save, prepareForSave, addPage. rewrite Hp.
    destruct (pages d') as [|p ps] eqn:E; simpl; unfold Toy.save; simpl;
      rewrite ?Hp, ?E; reflexivity. }
  assert (H2 : Forall2 (same_input Toy.world1 Toy.world_again) Toy.files Toy.files_again).
  { unfold Toy.files, Toy.files_again.
    repeat (constructor; [repeat split; vm_compute; reflexivity|]). constructor. }
  split; [by split|].
  exact (merge_is_repeatable Toy.libs Toy.files Toy.files_again
           Toy.world1 Toy.world_again H1 H2).
Defined.

(** The two runs store their inputs under different names and stamp
    different dates, and still merge to the same pages. *)
Example two_runs_differ_but_for_pages :
  match merge Toy.libs Toy.files Toy.world1,
        merge Toy.libs Toy.files_again Toy.world_again with
  | (Ok d1, _), (Ok d2, _) =>
      pages d1 = pages d2 /\ creationDate d1 <> creationDate d2 /\
      (file_path <$> Toy.files) <> (file_path <$> Toy.files_again)
  | _, _ => False
  end.
Proof. vm_compute. repeat split; discriminate. Qed.

(** ** Cleanup on the two exit paths *)

(** C6, where the code departs from it.  Three files are uploaded and the
    [order] field holds one entry, the empty string, which is a prefix of
    every storage name.  The resolved sequence is the first file alone;
    the merge succeeds, and the success path removes the files of the
    resolved sequence, not those of the request: after the download and
    after the timer has fired, [fs.remove] has been called on the first
    upload and on the output only, and the two other uploads are still on
    disk. *)
Theorem success_path_leaves_unordered_uploads :
  let req := {| body_order := Some (JSON_stringify [""]); req_files := Some Toy.files |} in
  let r := merge_handler Toy.libs req Toy.world1 in
  let final := snd (run_timers (snd r)) in
  file_path <$> Toy.files =
    ["/srv/uploads/temp/u0-a.pdf"; "/srv/uploads/temp/u1-b.png";
     "/srv/uploads/temp/u2-c.pdf"] /\
  fst r = Ok (Download "/srv/uploads/merged-u3.pdf" "merged-invoice.pdf") /\
  removals (trace final) =
    ["/srv/uploads/temp/u0-a.pdf"; "/srv/uploads/merged-u3.pdf"] /\
  fs final !! "/srv/uploads/temp/u0-a.pdf" = None /\
  fs final !! "/srv/uploads/temp/u1-b.png" = Some Toy.png_200x100 /\
  fs final !! "/srv/uploads/temp/u2-c.pdf" = Some Toy.one_page /\
  timers final = [].
Proof. vm_compute. repeat split; reflexivity. Qed.

(** The same request made to fail, by an unusable [order] field, takes the
    other path, which removes every upload. *)
Example error_path_removes_every_upload :
  let req := {| body_order := Some "{}"; req_files := Some Toy.files |} in
  let r := merge_handler Toy.libs req Toy.world1 in
  removals (trace (snd r)) = file_path <$> Toy.files /\ fs (snd r) = ∅.
Proof. vm_compute. split; reflexivity. Qed.

(** With a descriptor that names each file once, the success path removes
    every upload, and the timer the output. *)
Example success_path_with_full_descriptor :
  let req := {| body_order := Some (JSON_stringify ["u2"; "u0"; "u1"]);
                req_files := Some Toy.files |} in
  let r := merge_handler Toy.libs req Toy.world1 in
  let final := snd (run_timers (snd r)) in
  fst r = Ok (Download "/srv/uploads/merged-u3.pdf" "merged-invoice.pdf") /\
  removals (trace final) =
    ["/srv/uploads/temp/u2-c.pdf"; "/srv/uploads/temp/u0-a.pdf";
     "/srv/uploads/temp/u1-b.png"; "/srv/uploads/merged-u3.pdf"] /\
  fs final = ∅.
Proof. vm_compute. repeat split; reflexivity. Qed.

(** The success path in general: once the merge has succeeded and the
    output can be written, the handler starts the download, having called
    [fs.remove] on the files of the resolved sequence, and leaves one
    timer, for the output. *)
Lemma success_path_cleanup
    (L : Libs) (req : Request) (files ordered : list File) (w w1 : World)
    (doc : PDFDocument) :
  req_files req = Some files -> files <> [] ->
  resolve_order L (body_order req) files = Ok ordered ->
  merge L ordered w = (Ok doc, w1) ->
  let out := path.join (uploadsDir L) ("merged-" ++ uuidv4 L (drawn w1) ++ ".pdf")%string in
  out ∉ locked w1 ->
  exists evs w',
    merge_handler L req w = (Ok (Download out "merged-invoice.pdf"), w') /\
    trace w' = trace w1 ++ evs /\
    writes evs = [out] /\
    removals evs = file_path <$> ordered /\
    timers w' = timers w1 ++ [(60000%N, out)].
Proof.
  intros Hfiles Hne Hres Hmerge out Hout.
  unfold merge_handler, try_catch, merge_try. rewrite Hfiles.
  destruct files as [|f0 fl]; [done|].
  unfold bind at 1, lift. rewrite Hres.
  unfold bind at 1. rewrite Hmerge.
  unfold bind at 1, save, bind at 1, log at 1, ret at 1. cbv beta iota.
  unfold bind at 1. cbv beta iota.
  unfold bind at 1, fs_writeFile, bind at 1, log at 1. cbv beta iota.
  change (drawn (emit PdfSave w1)) with (drawn w1). fold out.
  change (locked (emit (FsWrite out) (draw (emit PdfSave w1)))) with (locked w1).
  destruct (decide (out ∈ locked w1)) as [Hin|_]; [done|]. cbv beta iota.
  unfold bind at 1.
  match goal with
  | |- context [cleanup ordered ?w0] =>
      destruct (for_of_guarded_remove file_path ordered w0)
        as (evs & w2 & Hrun & Htr & Hrm & Hwr & Hlk & Htm & Hfs);
      unfold cleanup; rewrite Hrun
  end.
  cbv beta iota. unfold download_callback, bind, log, ret.
  destruct (download_err w2) as [e|]; simpl;
    eexists; eexists; (split; [reflexivity|]); simpl;
    rewrite Htr, Htm; simpl; rewrite <- ?app_assoc; simpl.
  - split; [reflexivity|].
    unfold writes, removals in *. simpl. rewrite !omap_app, Hwr, Hrm. simpl.
    by rewrite app_nil_r.
  - split; [reflexivity|].
    unfold writes, removals in *. simpl. rewrite !omap_app, Hwr, Hrm. simpl.
    by rewrite app_nil_r.
Qed.

(** * Further properties of the server *)

(** ** What cleanup leaves on disk *)

(** After a loop of guarded removals the disk is the disk before, less
    the paths of the loop that are not locked. *)
Lemma for_of_guarded_remove_fs {A} (g : A -> string) (l : list A) w :
  let w' := snd (for_of l (fun x => catch_console_error (fs_remove (g x))) w) in
  locked w' = locked w /\ drawn w' = drawn w /\ now w' = now w /\
  forall p, fs w' !! p =
            if decide (p ∈ g <$> l /\ p ∉ locked w) then None else fs w !! p.
Proof.
  revert w. induction l as [|x l IH]; intros w.
  - simpl. repeat split.
  - assert (Hone : exists w1,
               catch_console_error (fs_remove (g x)) w = (Ok tt, w1) /\
               locked w1 = locked w /\ drawn w1 = drawn w /\ now w1 = now w /\
               fs w1 = if decide (g x ∈ locked w) then fs w else delete (g x) (fs w)).
    { unfold catch_console_error, try_catch, fs_remove, bind, log, emit, set_fs. simpl.
      destruct (decide (g x ∈ locked w)); simpl; eexists; repeat split. }
    destruct Hone as (w1 & Hrun & Hlk & Hdr & Hnow & Hfs).
    assert (Hstep : for_of (x :: l) (fun x => catch_console_error (fs_remove (g x))) w
                    = for_of l (fun x => catch_console_error (fs_remove (g x))) w1).
    { simpl. unfold bind. by rewrite Hrun. }
    rewrite Hstep. destruct (IH w1) as (Hlk' & Hdr' & Hnow' & Hfs').
    cbv beta iota zeta in *.
    rewrite Hlk', Hdr', Hnow', Hlk, Hdr, Hnow. split; [done|]. split; [done|].
    split; [done|].
    intros p. rewrite Hfs', Hlk, Hfs, fmap_cons.
    destruct (decide (p = g x)) as [->|Hne].
    + destruct (decide (g x ∈ locked w)) as [Hin|Hout].
      * rewrite !decide_False by tauto. done.
      * rewrite (decide_True (P := g x ∈ g x :: (g <$> l) /\ _)) by (split; [left|done]).
        destruct (decide _); [done|]. apply lookup_delete_eq.
    + assert (Hp : p ∈ g x :: (g <$> l) <-> p ∈ g <$> l).
      { rewrite elem_of_cons. tauto. }
      assert (Hfsp : (if decide (g x ∈ locked w) then fs w else delete (g x) (fs w)) !! p
                     = fs w !! p).
      { destruct (decide _); [done|]. by apply lookup_delete_ne. }
      rewrite Hfsp.
      destruct (decide (p ∈ g <$> l /\ p ∉ locked w)) as [H|H].
      * rewrite decide_True by tauto. done.
      * rewrite decide_False by tauto. done.
Qed.

(** ** The handler, path by path *)

Lemma cleanup_ok files w : cleanup files w = (Ok tt, snd (cleanup files w)).
Proof.
  destruct (for_of_guarded_remove file_path files w) as (evs & w' & H & _).
  unfold cleanup. by rewrite H.
Qed.

Lemma download_callback_ok out w :
  download_callback out w = (Ok tt, snd (download_callback out w)).
Proof.
  unfold download_callback, bind, log. by destruct (download_err w).
Qed.

(** The callback leaves the disk alone and adds one timer, for [out]. *)
Lemma download_callback_frame out w :
  let w' := snd (download_callback out w) in
  fs w' = fs w /\ locked w' = locked w /\ drawn w' = drawn w /\
  timers w' = timers w ++ [(60000%N, out)].
Proof. unfold download_callback, bind, log. by destruct (download_err w). Qed.

Section Paths.
Context (L : Libs).

(** The [try] block of a request with files, as a case analysis: the
    descriptor is unusable; the merge throws; the output cannot be
    written; or the download starts. *)
Lemma merge_try_cases req w files :
  req_files req = Some files -> files <> [] ->
  merge_try L req w =
    match resolve_order L (body_order req) files with
    | Throw e => (Throw e, w)
    | Ok ordered =>
        match merge L ordered w with
        | (Throw e, w1) => (Throw e, w1)
        | (Ok doc, w1) =>
            let out := path.join (uploadsDir L)
                         ("merged-" ++ uuidv4 L (drawn w1) ++ ".pdf")%string in
            let w2 := emit (FsWrite out) (draw (emit PdfSave w1)) in
            if decide (out ∈ locked w1)
            then (Throw ("EACCES: permission denied, open " ++ out)%string, w2)
            else (Ok (Download out "merged-invoice.pdf"),
                  snd (download_callback out
                         (snd (cleanup ordered
                                 (set_fs (insert out (PDFDocument_save L doc)) w2)))))
        end
    end.
Proof.
  intros Hfiles Hne. unfold merge_try. rewrite Hfiles.
  destruct files as [|f0 fl]; [done|].
  unfold bind at 1, lift.
  destruct (resolve_order L (body_order req) (f0 :: fl)) as [ordered|e]; [|done].
  unfold bind at 1.
  destruct (merge L ordered w) as [[doc|e] w1]; [|done].
  unfold bind at 1, save, bind at 1, log at 1, ret at 1. cbv beta iota.
  unfold bind at 1. cbv beta iota.
  unfold bind at 1, fs_writeFile, bind at 1, log at 1. cbv beta iota zeta.
  change (drawn (emit PdfSave w1)) with (drawn w1).
  change (locked (emit (FsWrite (path.join (uploadsDir L)
            ("merged-" ++ uuidv4 L (drawn w1) ++ ".pdf")%string))
            (draw (emit PdfSave w1)))) with (locked w1).
  destruct (decide (_ ∈ locked w1)); [done|]. cbv beta iota.
  unfold bind at 1. rewrite cleanup_ok. cbv beta iota.
  unfold bind at 1. rewrite download_callback_ok. done.
Qed.
End Paths.

Section Outcomes.
Context (L : Libs).

(** The [catch] block, with the world it leaves. *)
Lemma handler_catch_world req w e w1 files :
  req_files req = Some files ->
  merge_try L req w = (Throw e, w1) ->
  merge_handler L req w =
    (Ok (Json 500 (or_string e "Failed to merge files")),
     snd (cleanup files (emit (ConsoleError ("Merge error: " ++ e)%string) w1))).
Proof.
  intros Hfiles Htry. unfold merge_handler, try_catch. rewrite Htry, Hfiles.
  unfold bind at 1, log at 1. cbv beta iota. unfold bind at 1.
  by rewrite cleanup_ok.
Qed.


(** Every request is answered: no exception leaves the handler.  The
    answer is 400 exactly when the request has no files, and then the
    world is untouched; otherwise it is 500 or the download of
    [merged-invoice.pdf]. *)
Theorem handler_always_responds (req : Request) (w : World) :
  exists resp w',
    merge_handler L req w = (Ok resp, w') /\
    match req_files req with
    | None | Some [] => resp = Json 400 "No files uploaded" /\ w' = w
    | Some (_ :: _) =>
        (exists msg, resp = Json 500 msg) \/
        (exists out, resp = Download out "merged-invoice.pdf")
    end.
Proof.
  destruct (req_files req) as [[|f fl]|] eqn:Hfiles.
  - exists (Json 400 "No files uploaded"), w.
    unfold merge_handler, merge_try, try_catch. by rewrite Hfiles.
  - assert (Hne : f :: fl <> []) by done.
    pose proof (merge_try_cases L req w (f :: fl) Hfiles Hne) as Hcases.
    destruct (merge_try L req w) as [[resp|e] w1] eqn:Htry.
    + exists resp, w1. split.
      { unfold merge_handler, try_catch. by rewrite Htry. }
      destruct (resolve_order L (body_order req) (f :: fl)) as [ordered|e0]; [|done].
      destruct (merge L ordered w) as [[doc|e0] w0]; [|done].
      cbv zeta in Hcases. destruct (decide _); [done|].
      injection Hcases as -> _. right. by eexists.
    + eexists _, _. split; [exact (handler_catch_world req w e w1 _ Hfiles Htry)|].
      left. by eexists.
  - exists (Json 400 "No files uploaded"), w.
    unfold merge_handler, merge_try, try_catch. by rewrite Hfiles.
Qed.

End Outcomes.

Section Success.
Context (L : Libs).

(** The world after a request answered with a download. *)
Lemma download_world (req : Request) (w w' : World) (out name : string) :
  merge_handler L req w = (Ok (Download out name), w') ->
  exists files ordered doc w1,
    req_files req = Some files /\
    resolve_order L (body_order req) files = Ok ordered /\
    merge L ordered w = (Ok doc, w1) /\
    out = path.join (uploadsDir L) ("merged-" ++ uuidv4 L (drawn w) ++ ".pdf")%string /\
    name = "merged-invoice.pdf" /\
    (out ∉ locked w) /\
    locked w' = locked w /\
    drawn w' = S (drawn w) /\
    timers w' = timers w ++ [(60000%N, out)] /\
    (out ∉ file_path <$> ordered -> fs w' !! out = Some (PDFDocument_save L doc)) /\
    (forall p, p <> out ->
       fs w' !! p = if decide (p ∈ file_path <$> ordered /\ p ∉ locked w) then None
                    else fs w !! p).
Proof.
  intros Hrun.
  destruct (req_files req) as [[|f fl]|] eqn:Hfiles;
    try (unfold merge_handler, merge_try, try_catch in Hrun; by rewrite Hfiles in Hrun).
  assert (Hne : f :: fl <> []) by done.
  pose proof (merge_try_cases L req w (f :: fl) Hfiles Hne) as Hcases.
  destruct (merge_try L req w) as [[resp|e] w0] eqn:Htry.
  2: { by rewrite (handler_catch_world L req w e w0 _ Hfiles Htry) in Hrun. }
  unfold merge_handler, try_catch in Hrun. rewrite Htry in Hrun.
  injection Hrun as -> ->.
  destruct (resolve_order L (body_order req) (f :: fl)) as [ordered|e0] eqn:Hres; [|done].
  destruct (reads_only_merge L ordered) as [Hframe _].
  destruct (Hframe w) as (evs & Hsnd & _).
  destruct (merge L ordered w) as [[doc|e0] w1] eqn:Hmerge; [|done].
  simpl in Hsnd. cbv zeta in Hcases.
  destruct (decide _) as [|Hout]; [done|].
  injection Hcases as Hout' Hname Hw'. subst out name w'.
  assert (Hdr : drawn w1 = drawn w) by (by rewrite Hsnd).
  assert (Hlk : locked w1 = locked w) by (by rewrite Hsnd).
  assert (Hfs : fs w1 = fs w) by (by rewrite Hsnd).
  assert (Htm : timers w1 = timers w) by (by rewrite Hsnd).
  rewrite Hdr in *. clear Hsnd.
  set (out := path.join (uploadsDir L) ("merged-" ++ uuidv4 L (drawn w) ++ ".pdf")%string)
    in *.
  set (w2 := set_fs (insert out (PDFDocument_save L doc))
               (emit (FsWrite out) (draw (emit PdfSave w1)))).
  destruct (download_callback_frame out (snd (cleanup ordered w2)))
    as (Hcfs & Hclk & Hcdr & Hctm).
  destruct (for_of_guarded_remove file_path ordered w2)
    as (evs' & w3 & Hc & _ & _ & _ & _ & Htm3 & _).
  destruct (for_of_guarded_remove_fs file_path ordered w2) as (Hlk3 & Hdr3 & _ & Hfs3).
  unfold cleanup in *. cbv zeta in *. rewrite Hc in *. simpl snd in *.
  exists (f :: fl), ordered, doc, w1.
  split; [done|]. split; [done|]. split; [done|]. split; [done|]. split; [done|].
  split; [by rewrite <- Hlk|].
  split; [rewrite Hclk, Hlk3; unfold w2; simpl; by rewrite Hlk|].
  split; [rewrite Hcdr, Hdr3; unfold w2; simpl; by rewrite Hdr|].
  split; [rewrite Hctm, Htm3; unfold w2; simpl; by rewrite Htm|].
  split.
  - intros Hfresh. rewrite Hcfs, Hfs3.
    rewrite decide_False by tauto. unfold w2. simpl. apply lookup_insert_eq.
  - intros p Hp. rewrite Hcfs, Hfs3. unfold w2. simpl. rewrite Hlk, Hfs.
    by rewrite lookup_insert_ne.
Qed.

(** A request answered with a download: the resolved sequence merged, the
    output was stored under [uploads/merged-<uuid>.pdf] with a fresh
    identifier, and one timer of a minute is pending for it.  Provided no
    upload of the resolved sequence has that very path, the stored file is
    the serialized merged document.  The rest of the disk is the disk
    before, less the files of the resolved sequence whose removal did not
    fail. *)
Theorem download_holds_merged_document
    (req : Request) (w w' : World) (out name : string) :
  merge_handler L req w = (Ok (Download out name), w') ->
  exists files ordered doc w1,
    req_files req = Some files /\
    resolve_order L (body_order req) files = Ok ordered /\
    merge L ordered w = (Ok doc, w1) /\
    out = path.join (uploadsDir L) ("merged-" ++ uuidv4 L (drawn w) ++ ".pdf")%string /\
    name = "merged-invoice.pdf" /\
    (out ∉ locked w) /\
    drawn w' = S (drawn w) /\
    timers w' = timers w ++ [(60000%N, out)] /\
    (out ∉ file_path <$> ordered -> fs w' !! out = Some (PDFDocument_save L doc)) /\
    (forall p, p <> out -> p ∈ file_path <$> ordered -> p ∉ locked w ->
       fs w' !! p = None) /\
    (forall p, p <> out -> p ∉ file_path <$> ordered \/ p ∈ locked w ->
       fs w' !! p = fs w !! p).
Proof.
  intros Hrun.
  destruct (download_world req w w' out name Hrun)
    as (files & ordered & doc & w1 & H1 & H2 & H3 & H4 & H5 & H6 & _ & H7 & H8 & H9 & H10).
  exists files, ordered, doc, w1. repeat (split; [done|]). split; intros p Hp.
  - intros Hin Hfree. rewrite (H10 p Hp). by rewrite decide_True.
  - intros Hout. rewrite (H10 p Hp). rewrite decide_False; [done|]. tauto.
Qed.

(** The timers, fired: every pending path has had its [fs.remove], no
    timer remains, and a path that was pending and is not locked is gone. *)
Lemma run_timers_spec w :
  let wf := snd (run_timers w) in
  fst (run_timers w) = Ok tt /\ timers wf = [] /\
  forall p, fs wf !! p =
            if decide (p ∈ snd <$> timers w /\ p ∉ locked w) then None else fs w !! p.
Proof.
  unfold run_timers.
  destruct (for_of_guarded_remove snd (timers w) (clear_timers w))
    as (evs & w3 & Hc & _ & _ & _ & _ & Htm3 & _).
  destruct (for_of_guarded_remove_fs snd (timers w) (clear_timers w)) as (_ & _ & _ & Hfs3).
  cbv zeta in *. rewrite Hc in *. simpl in *. done.
Qed.

(** After a download, the timers fire in the world as it is a minute
    later: its disk and its locks need not be those the handler left.
    The run returns normally and leaves no timer; [fs.remove] has been
    called on the paths that were pending and on the output, last.  The
    removal is only attempted: the output is gone when its removal does
    not fail, and stays as it was when it fails. *)
Theorem output_removed_after_timeout
    (req : Request) (w w' later : World) (out name : string) :
  merge_handler L req w = (Ok (Download out name), w') ->
  timers later = timers w' ->
  fst (run_timers later) = Ok tt /\
  timers (snd (run_timers later)) = [] /\
  (exists evs,
     trace (snd (run_timers later)) = trace later ++ evs /\
     removals evs = (snd <$> timers w) ++ [out] /\ writes evs = []) /\
  (out ∉ locked later -> fs (snd (run_timers later)) !! out = None) /\
  (out ∈ locked later ->
     fs (snd (run_timers later)) !! out = fs later !! out).
Proof.
  intros Hrun Hlater.
  destruct (download_world req w w' out name Hrun)
    as (files & ordered & doc & w1 & _ & _ & _ & _ & _ & _ & _ & _ & Htm & _).
  destruct (run_timers_spec later) as (Hok & Hnil & Hfs).
  cbv zeta in *. split; [done|]. split; [done|].
  assert (Hpending : out ∈ snd <$> timers later).
  { rewrite Hlater, Htm, fmap_app. apply elem_of_app. right. simpl. left. }
  split; [|split].
  - unfold run_timers.
    destruct (for_of_guarded_remove snd (timers later) (clear_timers later))
      as (evs & w3 & Hc & Htr & Hrm & Hwr & _).
    rewrite Hc. simpl. exists evs. split; [exact Htr|]. split; [|exact Hwr].
    by rewrite Hrm, Hlater, Htm, fmap_app.
  - intros Hfree. rewrite Hfs. by rewrite decide_True.
  - intros Hlocked. rewrite Hfs. rewrite decide_False; [done|]. tauto.
Qed.
End Success.

Lemma download_holds_merged_document_witness :
  let req := {| body_order := None; req_files := Some Toy.files |} in
  let w := Toy.world1 in
  let w' := snd (merge_handler Toy.libs req w) in
  let out := "/srv/uploads/merged-u3.pdf" in
  let name := "merged-invoice.pdf" in
  merge_handler Toy.libs req w = (Ok (Download out name), w') /\
  exists files ordered doc w1,
    req_files req = Some files /\
    resolve_order Toy.libs (body_order req) files = Ok ordered /\
    merge Toy.libs ordered w = (Ok doc, w1) /\
    out = path.join (uploadsDir Toy.libs)
            ("merged-" ++ uuidv4 Toy.libs (drawn w) ++ ".pdf")%string /\
    name = "merged-invoice.pdf" /\
    (out ∉ locked w) /\
    drawn w' = S (drawn w) /\
    timers w' = timers w ++ [(60000%N, out)] /\
    (out ∉ file_path <$> ordered -> fs w' !! out = Some (PDFDocument_save Toy.libs doc)) /\
    (forall p, p <> out -> p ∈ file_path <$> ordered -> p ∉ locked w ->
       fs w' !! p = None) /\
    (forall p, p <> out -> p ∉ file_path <$> ordered \/ p ∈ locked w ->
       fs w' !! p = fs w !! p).
Proof.
  intros req w w' out name.
  assert (H : merge_handler Toy.libs req w = (Ok (Download out name), w')).
  { assert (Hfst : fst (merge_handler Toy.libs req w) = Ok (Download out name))
      by (vm_compute; reflexivity).
    subst w'. destruct (merge_handler Toy.libs req w) as [r wx].
    simpl in Hfst. by subst r. }
  split; [exact H|].
  exact (download_holds_merged_document Toy.libs req w w' out name H).
Defined.

Lemma output_removed_after_timeout_witness :
  let req := {| body_order := None; req_files := Some Toy.files |} in
  let w := Toy.world1 in
  let w' := snd (merge_handler Toy.libs req w) in
  let out := "/srv/uploads/merged-u3.pdf" in
  let name := "merged-invoice.pdf" in
  let later := w' in
  (merge_handler Toy.libs req w = (Ok (Download out name), w') /\
   timers later = timers w') /\
  fst (run_timers later) = Ok tt /\
  timers (snd (run_timers later)) = [] /\
  (exists evs,
     trace (snd (run_timers later)) = trace later ++ evs /\
     removals evs = (snd <$> timers w) ++ [out] /\ writes evs = []) /\
  (out ∉ locked later -> fs (snd (run_timers later)) !! out = None) /\
  (out ∈ locked later ->
     fs (snd (run_timers later)) !! out = fs later !! out).
Proof.
  intros req w w' out name later.
  assert (H : merge_handler Toy.libs req w = (Ok (Download out name), w')).
  { assert (Hfst : fst (merge_handler Toy.libs req w) = Ok (Download out name))
      by (vm_compute; reflexivity).
    subst w'. destruct (merge_handler Toy.libs req w) as [r wx].
    simpl in Hfst. by subst r. }
  assert (H2 : timers later = timers w') by reflexivity.
  split; [exact (conj H H2)|].
  exact (output_removed_after_timeout Toy.libs req w w' later out name H H2).
Defined.

(** A removal that fails when the timer fires: the output, written
    without trouble, is locked a minute later; the failure is logged and
    the file stays. *)
Example locked_output_stays :
  let req := {| body_order := None; req_files := Some Toy.files |} in
  let w' := snd (merge_handler Toy.libs req Toy.world1) in
  let out := "/srv/uploads/merged-u3.pdf" in
  let later := {| fs := fs w'; locked := {[ out ]}; trace := []; timers := timers w';
                  now := now w' + 60; drawn := drawn w'; download_err := None |} in
  fst (run_timers later) = Ok tt /\
  trace (snd (run_timers later))
  = [FsRemove out; ConsoleError ("EPERM: operation not permitted, unlink " ++ out)] /\
  fs (snd (run_timers later)) !! out = fs w' !! out /\
  fs w' !! out = Some (PDFDocument_save Toy.libs
                         {| creationDate := 0;
                            pages := Toy.page_of_byte <$>
                                       [Byte.x41; Byte.x42; Byte.x01; Byte.x43] |}).
Proof.
  intros req w' out later.
  split; [|split; [|split]]; vm_compute; reflexivity.
Qed.

(** ** What the merge and the image normalizer leave alone *)

Section Engine.
Context (L : Libs).

(** The merge engine only reads: whatever the files and whether it
    succeeds or throws, the disk, the locks, the timers and the
    identifiers drawn are as before, and it has called neither
    [fs.writeFile] nor [fs.remove]. *)
Theorem merge_only_reads (files : list File) (w : World) :
  exists evs,
    snd (merge L files w) = emit_all evs w /\
    writes evs = [] /\ removals evs = [] /\
    fs (snd (merge L files w)) = fs w /\
    timers (snd (merge L files w)) = timers w /\
    drawn (snd (merge L files w)) = drawn w.
Proof.
  destruct (reads_only_merge L files) as [Hframe _].
  destruct (Hframe w) as (evs & -> & Hw & Hr). by exists evs.
Qed.

(** [imageToPdf] only reads: it returns bytes and stores nothing. *)
Theorem imageToPdf_only_reads (imagePath : string) (w : World) :
  exists evs,
    snd (imageToPdf L imagePath w) = emit_all evs w /\
    writes evs = [] /\ removals evs = [] /\
    fs (snd (imageToPdf L imagePath w)) = fs w.
Proof.
  destruct (reads_only_imageToPdf L imagePath) as [Hframe _].
  destruct (Hframe w) as (evs & -> & Hw & Hr). by exists evs.
Qed.

(** Whenever [imageToPdf] builds a document, the file was read, sharp
    gave its metadata, the codec the extension of the path selects
    embedded it, and the document is one page with one content: that
    image, drawn from the origin over the page's own width and height. *)
Theorem image_page_is_filled (imagePath : string) (w w' : World) (doc : PDFDocument) :
  imageToPdf_doc L imagePath w = (Ok doc, w') ->
  exists b md img page,
    fs w !! imagePath = Some b /\
    sharp_metadata L b = Ok md /\
    match codec_of imagePath with
    | PNG => embedPng L b
    | JPG => embedJpg L b
    end = Ok img /\
    pages doc = [page] /\
    page_width page = page_dim (width md) (density md) /\
    page_height page = page_dim (height md) (density md) /\
    page_ops page = [DrawImage img 0%float 0%float (page_width page) (page_height page)].
Proof.
  unfold imageToPdf_doc, codec_of, fs_readFile, metadata_of, PDFDocument_create,
    bind, log, lift, ret. simpl.
  destruct (fs w !! imagePath) as [b|] eqn:Hb; simpl; [|done].
  destruct (sharp_metadata L b) as [md|] eqn:Hmd; simpl; [|done].
  destruct (String.eqb _ ".png"); simpl.
  - destruct (embedPng L b) as [img|] eqn:Himg; simpl; [|done].
    intros [= <- _]. by eexists b, md, img, _.
  - destruct (embedJpg L b) as [img|] eqn:Himg; simpl; [|done].
    intros [= <- _]. by eexists b, md, img, _.
Qed.
End Engine.

(** A page dimension is never [NaN] and never zero, whatever sharp
    reports: a falsy quotient is replaced by 72. *)
Theorem page_dim_is_truthy (dim : number) (dens : option number) :
  truthy (page_dim dim dens) = true.
Proof.
  unfold page_dim, or_number.
  destruct (truthy (dim * 72 / ToNumber dens)%float) eqn:H; [exact H|].
  vm_compute. reflexivity.
Qed.

Lemma image_page_is_filled_witness :
  let p := "/srv/uploads/temp/u1-b.png" in
  let w := Toy.world1 in
  let doc := {| creationDate := 0;
                pages := [ {| page_width := 72%float; page_height := 72%float;
                              page_ops :=
                                [DrawImage {| image_codec := PNG;
                                              image_data := Toy.png_200x100 |}
                                   0%float 0%float 72%float 72%float] |} ] |} in
  let w' := snd (imageToPdf_doc Toy.libs p w) in
  imageToPdf_doc Toy.libs p w = (Ok doc, w') /\
  exists b md img page,
    fs w !! p = Some b /\
    sharp_metadata Toy.libs b = Ok md /\
    match codec_of p with
    | PNG => embedPng Toy.libs b
    | JPG => embedJpg Toy.libs b
    end = Ok img /\
    pages doc = [page] /\
    page_width page = page_dim (width md) (density md) /\
    page_height page = page_dim (height md) (density md) /\
    page_ops page = [DrawImage img 0%float 0%float (page_width page) (page_height page)].
Proof.
  intros p w doc w'.
  assert (H : imageToPdf_doc Toy.libs p w = (Ok doc, w')).
  { assert (Hfst : fst (imageToPdf_doc Toy.libs p w) = Ok doc) by (vm_compute; reflexivity).
    subst w'. destruct (imageToPdf_doc Toy.libs p w) as [r wx].
    simpl in Hfst. by subst r. }
  split; [exact H|].
  exact (image_page_is_filled Toy.libs p w w' doc H).
Defined.

(** ** How merges compose *)

Lemma for_of_acc_app {A S} (body : S -> A -> M S) (l1 l2 : list A) : forall acc w,
  for_of_acc (l1 ++ l2) body acc w =
    match for_of_acc l1 body acc w with
    | (Ok acc', w') => for_of_acc l2 body acc' w'
    | (Throw e, w') => (Throw e, w')
    end.
Proof.
  induction l1 as [|x l1 IH]; intros acc w; [done|].
  simpl. unfold bind. destruct (body acc x w) as [[acc'|e] w']; [apply IH | done].
Qed.

Lemma merge_runs_app rs1 rs2 doc :
  merge_runs (rs1 ++ rs2) doc =
    match merge_runs rs1 doc with
    | Ok doc' => merge_runs rs2 doc'
    | Throw e => Throw e
    end.
Proof.
  revert doc. induction rs1 as [|[run|e] rs1 IH]; intros doc; simpl; [done| |done].
  apply IH.
Qed.

(** [merge_runs] succeeds exactly on runs that all succeeded, and then
    appends them in order. *)
Lemma merge_runs_ok rs doc doc' :
  merge_runs rs doc = Ok doc' ->
  exists runs, rs = Ok <$> runs /\
               doc' = {| creationDate := creationDate doc;
                         pages := pages doc ++ concat runs |}.
Proof.
  revert doc. induction rs as [|[run|e] rs IH]; intros doc; simpl.
  - intros [= <-]. exists []. simpl. rewrite app_nil_r. by destruct doc.
  - intros H. destruct (IH _ H) as (runs & -> & ->). exists (run :: runs).
    simpl. by rewrite <- app_assoc.
  - done.
Qed.

Lemma merge_runs_of_ok runs doc :
  merge_runs (Ok <$> runs) doc =
    Ok {| creationDate := creationDate doc; pages := pages doc ++ concat runs |}.
Proof.
  revert doc. induction runs as [|run runs IH]; intros doc; simpl.
  - rewrite app_nil_r. by destruct doc.
  - rewrite IH. simpl. by rewrite <- app_assoc.
Qed.

Section Compose.
Context (L : Libs).

(** The result of the merge, from the contributions of its files. *)
Lemma merge_fst_runs files w :
  fst (merge L files w) =
    merge_runs (contribution L w <$> files) {| creationDate := now w; pages := [] |}.
Proof.
  change (fst (merge L files w))
    with (fst (for_of_acc files (merge_file L) {| creationDate := now w; pages := [] |}
                 (emit PdfCreate w))).
  rewrite merge_loop_runs. f_equal. apply list_fmap_ext. intros _ g _.
  by apply contribution_reads.
Qed.

(** Merging two sequences one after the other is merging their
    concatenation: when both merge, so does the concatenation, into the
    pages of the first followed by the pages of the second. *)
Theorem merge_app (l1 l2 : list File) (w w1 w2 : World) (d1 d2 : PDFDocument) :
  merge L l1 w = (Ok d1, w1) ->
  merge L l2 w = (Ok d2, w2) ->
  exists d w',
    merge L (l1 ++ l2) w = (Ok d, w') /\ pages d = pages d1 ++ pages d2.
Proof.
  intros H1 H2.
  pose proof (merge_fst_runs l1 w) as E1. rewrite H1 in E1. simpl in E1.
  pose proof (merge_fst_runs l2 w) as E2. rewrite H2 in E2. simpl in E2.
  symmetry in E1, E2.
  destruct (merge_runs_ok _ _ _ E1) as (r1 & Hr1 & ->).
  destruct (merge_runs_ok _ _ _ E2) as (r2 & Hr2 & ->).
  pose proof (merge_fst_runs (l1 ++ l2) w) as E.
  rewrite fmap_app, Hr1, Hr2, <- fmap_app, merge_runs_of_ok in E.
  destruct (merge L (l1 ++ l2) w) as [r w']. simpl in E. subst r.
  eexists _, w'. split; [reflexivity|]. simpl. by rewrite concat_app.
Qed.

(** The merge stops at the first file that cannot be processed: the
    files after it are neither read nor parsed, and the merge of the
    whole sequence is, result and trace alike, the merge of the sequence
    cut after that file. *)
Theorem merge_stops_at_failure (good bad : list File) (f : File) (w : World) (e : string) :
  contribution L w f = Throw e ->
  merge L (good ++ f :: bad) w = merge L (good ++ [f]) w.
Proof.
  intros Hf. unfold merge, bind.
  destruct (PDFDocument_create w) as [[doc|e0] w0] eqn:Hcreate; [|done].
  assert (Hw0 : fs w0 = fs w /\ now w0 = now w).
  { unfold PDFDocument_create, bind, log in Hcreate. simpl in Hcreate.
    by injection Hcreate as _ <-. }
  rewrite !for_of_acc_app.
  destruct (reads_only_for_of_acc (merge_file L) good (reads_only_merge_file L) doc)
    as [Hframe _].
  destruct (Hframe w0) as (evs & Hsnd & _).
  destruct (for_of_acc good (merge_file L) doc w0) as [[acc|e0] w1]; [|done].
  simpl in Hsnd. subst w1. simpl. unfold bind.
  pose proof (merge_file_acc L acc f (emit_all evs w0)) as Hacc.
  rewrite (contribution_reads L (emit_all evs w0) w f) in Hacc by (simpl; tauto).
  rewrite Hf in Hacc.
  destruct (merge_file L acc f (emit_all evs w0)) as [r w2]. simpl in Hacc. by subst r.
Qed.
End Compose.

Lemma merge_app_witness :
  let l1 := take 2 Toy.files in
  let l2 := drop 2 Toy.files in
  let w := Toy.world1 in
  let d1 := {| creationDate := 0;
               pages := [Toy.page_of_byte Byte.x41; Toy.page_of_byte Byte.x42;
                         Toy.page_of_byte Byte.x01] |} in
  let d2 := {| creationDate := 0; pages := [Toy.page_of_byte Byte.x43] |} in
  let w1 := snd (merge Toy.libs l1 w) in
  let w2 := snd (merge Toy.libs l2 w) in
  (merge Toy.libs l1 w = (Ok d1, w1) /\ merge Toy.libs l2 w = (Ok d2, w2)) /\
  exists d w',
    merge Toy.libs (l1 ++ l2) w = (Ok d, w') /\ pages d = pages d1 ++ pages d2.
Proof.
  intros l1 l2 w d1 d2 w1 w2.
  assert (H1 : merge Toy.libs l1 w = (Ok d1, w1)).
  { assert (Hfst : fst (merge Toy.libs l1 w) = Ok d1) by (vm_compute; reflexivity).
    subst w1. destruct (merge Toy.libs l1 w) as [r wx]. simpl in Hfst. by subst r. }
  assert (H2 : merge Toy.libs l2 w = (Ok d2, w2)).
  { assert (Hfst : fst (merge Toy.libs l2 w) = Ok d2) by (vm_compute; reflexivity).
    subst w2. destruct (merge Toy.libs l2 w) as [r wx]. simpl in Hfst. by subst r. }
  split; [by split|].
  exact (merge_app Toy.libs l1 l2 w w1 w2 d1 d2 H1 H2).
Defined.

Lemma merge_stops_at_failure_witness :
  let good := take 1 Toy.bad_files in
  let bad := drop 2 Toy.bad_files in
  let f := {| originalname := "bad.pdf"; mimetype := "application/pdf"; size := 2;
              filename := "u1-bad.pdf"; file_path := "/srv/uploads/temp/u1-bad.pdf" |} in
  contribution Toy.libs Toy.bad_world f = Throw "Failed to process bad.pdf" /\
  merge Toy.libs (good ++ f :: bad) Toy.bad_world
  = merge Toy.libs (good ++ [f]) Toy.bad_world.
Proof.
  intros good bad f.
  assert (H : contribution Toy.libs Toy.bad_world f = Throw "Failed to process bad.pdf")
    by (vm_compute; reflexivity).
  split; [exact H|].
  exact (merge_stops_at_failure Toy.libs good bad f Toy.bad_world _ H).
Defined.

(** ** More on the resolved sequence *)

Section Sequence.
Context (L : Libs).

Lemma find_none_of (q : File -> bool) (l : list File) :
  (forall f, f ∈ l -> q f = false) -> List.find q l = None.
Proof.
  induction l as [|x l IH]; intros H; simpl; [done|].
  rewrite (H x) by left. apply IH. intros f Hf. apply H. by right.
Qed.

Lemma allFiles_received (orderArray : list json) (files seq : list File) (f : File) :
  allFiles L orderArray files = Ok seq -> f ∈ seq -> f ∈ files.
Proof.
  destruct (Array_map (ToString L) orderArray) as [ids|e] eqn:Hids.
  - rewrite (allFiles_converted L orderArray ids files Hids). intros [= <-].
    rewrite elem_of_app. intros [Hs|Hr].
    + apply list_elem_of_omap in Hs as (id & _ & Hfind).
      apply find_some in Hfind as [Hin _]. by apply list_elem_of_In.
    + apply list_elem_of_In, filter_In in Hr as [Hin _]. by apply list_elem_of_In.
  - destruct files as [|f0 files].
    + rewrite allFiles_no_files. intros [= <-] Hf. by apply elem_of_nil in Hf.
    + by rewrite (allFiles_throws L orderArray (f0 :: files) e).
Qed.

(** The resolved sequence holds received files only. *)
Theorem resolved_files_were_received
    (orderArray : list json) (files seq : list File) (f : File) :
  allFiles L orderArray files = Ok seq -> f ∈ seq -> f ∈ files.
Proof. apply allFiles_received. Qed.

(** An entry that [startsWith] finds at the head of no received name
    converts to a string, when there is a file to try it on. *)
Lemma unmatched_converts (id : json) (files : list File) :
  files <> [] ->
  (forall f, f ∈ files -> named_by L id f = Ok false) ->
  exists s, ToString L id = Ok s /\
            forall f, f ∈ files -> startsWith (filename f) s = false.
Proof.
  intros Hne Hnone. destruct files as [|f0 files]; [done|].
  pose proof (Hnone f0 (list_elem_of_here _ _)) as H0. unfold named_by in H0.
  destruct (ToString L id) as [s|e] eqn:Hs; [|done].
  exists s. split; [done|]. intros f Hf. specialize (Hnone f Hf).
  unfold named_by in Hnone. rewrite Hs in Hnone. simpl in Hnone. congruence.
Qed.

Lemma unmatched_entry_anywhere (before after : list json) (id : json)
    (files : list File) :
  (forall f, f ∈ files -> named_by L id f = Ok false) ->
  allFiles L (before ++ id :: after) files = allFiles L (before ++ after) files.
Proof.
  intros Hnone. destruct (decide (files = [])) as [->|Hne].
  { by rewrite !allFiles_no_files. }
  destruct (unmatched_converts id files Hne Hnone) as (s & Hs & Hno).
  assert (Hcons : Array_map (ToString L) (id :: after)
                  = let? ys := Array_map (ToString L) after in Ok (s :: ys)).
  { rewrite Array_map_cons, Hs. reflexivity. }
  destruct (Array_map (ToString L) before) as [bs|e] eqn:Hb.
  - destruct (Array_map (ToString L) after) as [ys|e] eqn:Ha.
    + rewrite (allFiles_converted L (before ++ id :: after) (bs ++ s :: ys) files)
        by (by rewrite Array_map_app, Hb, Hcons).
      rewrite (allFiles_converted L (before ++ after) (bs ++ ys) files)
        by (by rewrite Array_map_app, Hb, Ha).
      do 2 f_equal.
      * rewrite !omap_app. f_equal. simpl.
        by rewrite (find_none_of (fun f => startsWith (filename f) s) files Hno).
      * apply filter_ext_in. intros f Hf. apply list_elem_of_In in Hf. f_equal.
        rewrite !existsb_app. simpl. by rewrite (Hno f Hf).
    + rewrite (allFiles_throws L (before ++ id :: after) files e Hne)
        by (by rewrite Array_map_app, Hb, Hcons).
      by rewrite (allFiles_throws L (before ++ after) files e Hne)
        by (by rewrite Array_map_app, Hb, Ha).
  - rewrite (allFiles_throws L (before ++ id :: after) files e Hne)
      by (by rewrite Array_map_app, Hb).
    by rewrite (allFiles_throws L (before ++ after) files e Hne)
      by (by rewrite Array_map_app, Hb).
Qed.

(** A descriptor entry that names no received file is ignored, wherever
    it stands in the descriptor: the resolution ends as it does without
    the entry, in the same sequence or with the same exception. *)
Theorem unmatched_entry_is_ignored (before after : list json) (id : json)
    (files : list File) :
  (forall f, f ∈ files -> named_by L id f = Ok false) ->
  allFiles L (before ++ id :: after) files = allFiles L (before ++ after) files.
Proof. apply unmatched_entry_anywhere. Qed.

(** A descriptor none of whose entries names a received file leaves the
    files in receipt order. *)
Lemma unmatched_descriptor_is_receipt_order (orderArray : list json) (files : list File) :
  (forall id f, id ∈ orderArray -> f ∈ files -> named_by L id f = Ok false) ->
  allFiles L orderArray files = Ok files.
Proof.
  induction orderArray as [|id orderArray IH]; intros Hnone.
  - apply allFiles_nil.
  - rewrite <- IH by (intros id' f Hid Hf; apply Hnone; [by right | done]).
    apply (unmatched_entry_anywhere [] orderArray id files).
    intros f Hf. apply Hnone; [by left | done].
Qed.

(** A descriptor of strings each of which names one received file and no
    other, and which together list every received file, is honoured: the
    resolved sequence is the files listed, in descriptor order. *)
Theorem full_descriptor_is_honoured (ids : list string) (wanted files : list File) :
  Forall2 (fun id f =>
             f ∈ files /\ startsWith (filename f) id = true /\
             forall g, g ∈ files -> startsWith (filename g) id = true -> g = f)
    ids wanted ->
  (forall g, g ∈ files -> g ∈ wanted) ->
  allFiles L (JStr <$> ids) files = Ok wanted.
Proof.
  intros Hall Hcover. rewrite allFiles_strings. f_equal.
  assert (Hs : omap (fun id => List.find (fun f => startsWith (filename f) id) files) ids
               = wanted).
  { clear Hcover. induction Hall as [|id f ids wanted (Hin & Hname & Huniq) _ IH]; [done|].
    simpl. destruct (List.find _ files) as [g|] eqn:Hfind.
    - apply find_some in Hfind as [Hg Hgn]. apply list_elem_of_In in Hg.
      rewrite (Huniq g Hg Hgn). f_equal. exact IH.
    - exfalso. apply list_elem_of_In in Hin.
      pose proof (find_none _ _ Hfind f Hin) as Hno. simpl in Hno. congruence. }
  rewrite Hs.
  assert (Hr : List.filter
                 (fun f => negb (existsb (fun id => startsWith (filename f) id) ids)) files
               = []).
  { assert (Hnamed : forall g, g ∈ files ->
                existsb (fun id => startsWith (filename g) id) ids = true).
    { intros g Hg. specialize (Hcover g Hg). clear Hs.
      induction Hall as [|id f ids wanted (Hin & Hname & Huniq) _ IH]; simpl.
      - by apply elem_of_nil in Hcover.
      - apply elem_of_cons in Hcover as [->|Hrest]; [by rewrite Hname|].
        rewrite (IH Hrest). apply orb_true_r. }
    clear Hs Hall Hcover. induction files as [|g files IH]; simpl; [done|].
    rewrite (Hnamed g) by left. simpl. apply IH. intros h Hh. apply Hnamed. by right. }
  rewrite Hr. apply app_nil_r.
Qed.
End Sequence.

Ltac in_toy_files H :=
  unfold Toy.files in H;
  repeat (apply elem_of_cons in H as [->|H]); [..|by apply elem_of_nil in H].

Lemma resolved_files_were_received_witness :
  let fb := {| originalname := "b.png"; mimetype := "image/png"; size := 4;
               filename := "u1-b.png"; file_path := "/srv/uploads/temp/u1-b.png" |} in
  let seq := fb :: List.filter (fun f => negb (String.eqb (filename f) "u1-b.png"))
                   Toy.files in
  (allFiles Toy.libs [JStr "u1"] Toy.files = Ok seq /\ fb ∈ seq) /\ fb ∈ Toy.files.
Proof.
  intros fb seq.
  assert (H1 : allFiles Toy.libs [JStr "u1"] Toy.files = Ok seq)
    by (vm_compute; reflexivity).
  assert (H2 : fb ∈ seq) by left.
  split; [exact (conj H1 H2)|].
  exact (resolved_files_were_received Toy.libs [JStr "u1"] Toy.files seq fb H1 H2).
Defined.

Lemma unmatched_entry_is_ignored_witness :
  (forall f, f ∈ Toy.files -> named_by Toy.libs (JStr "nobody") f = Ok false) /\
  allFiles Toy.libs ([JStr "u2"] ++ JStr "nobody" :: [JStr "u0"]) Toy.files
  = allFiles Toy.libs ([JStr "u2"] ++ [JStr "u0"]) Toy.files.
Proof.
  assert (H : forall f, f ∈ Toy.files -> named_by Toy.libs (JStr "nobody") f = Ok false).
  { intros f Hf. in_toy_files Hf; vm_compute; reflexivity. }
  split; [exact H|].
  exact (unmatched_entry_is_ignored Toy.libs [JStr "u2"] [JStr "u0"] (JStr "nobody")
           Toy.files H).
Defined.

Lemma full_descriptor_is_honoured_witness :
  let fa := {| originalname := "a.pdf"; mimetype := "application/pdf"; size := 3;
               filename := "u0-a.pdf"; file_path := "/srv/uploads/temp/u0-a.pdf" |} in
  let fb := {| originalname := "b.png"; mimetype := "image/png"; size := 4;
               filename := "u1-b.png"; file_path := "/srv/uploads/temp/u1-b.png" |} in
  let fc := {| originalname := "c.pdf"; mimetype := "application/pdf"; size := 2;
               filename := "u2-c.pdf"; file_path := "/srv/uploads/temp/u2-c.pdf" |} in
  let ids := ["u2"; "u0"; "u1"] in
  let wanted := [fc; fa; fb] in
  (Forall2 (fun id f =>
              f ∈ Toy.files /\ startsWith (filename f) id = true /\
              forall g, g ∈ Toy.files -> startsWith (filename g) id = true -> g = f)
     ids wanted /\
   (forall g, g ∈ Toy.files -> g ∈ wanted)) /\
  allFiles Toy.libs (JStr <$> ids) Toy.files = Ok wanted.
Proof.
  intros fa fb fc ids wanted.
  assert (Hmem : forall g, g ∈ Toy.files -> g = fa \/ g = fb \/ g = fc).
  { intros g Hg. in_toy_files Hg; tauto. }
  assert (H1 : Forall2 (fun id f =>
              f ∈ Toy.files /\ startsWith (filename f) id = true /\
              forall g, g ∈ Toy.files -> startsWith (filename g) id = true -> g = f)
            ids wanted).
  { repeat (constructor;
            [split; [unfold Toy.files; repeat ((by left) || right) |
             split; [vm_compute; reflexivity|];
             intros g Hg Hn; destruct (Hmem g Hg) as [->|[->| ->]];
             first [reflexivity | (vm_compute in Hn; discriminate)]] |]).
    constructor. }
  assert (H2 : forall g, g ∈ Toy.files -> g ∈ wanted).
  { intros g Hg. destruct (Hmem g Hg) as [->|[->| ->]]; unfold wanted;
      repeat ((by left) || right). }
  split; [by split|].
  exact (full_descriptor_is_honoured Toy.libs ids wanted Toy.files H1 H2).
Defined.

(** ** Storage of the uploads *)

Lemma string_app_inv_head (a x y : string) : (a ++ x = a ++ y)%string -> x = y.
Proof. induction a as [|c a IH]; simpl; [done|]. intros [= H]. by apply IH. Qed.

Lemma string_app_same_length (a b x y : string) :
  (a ++ x = b ++ y)%string -> String.length a = String.length b -> a = b /\ x = y.
Proof.
  revert b. induction a as [|c a IH]; intros [|d b]; simpl; try done.
  intros [= -> H] [= Hlen]. destruct (IH b H Hlen) as [-> ->]. done.
Qed.

Section Storage.
Context (L : Libs).

(** [store] on its own: the file record, and the bytes on disk. *)
Lemma store_spec (part : Part) (w : World) :
  let name := (uuidv4 L (drawn w) ++ "-" ++ part_name part)%string in
  let p := path.join (tempDir L) name in
  store L part w =
    (Ok {| originalname := part_name part; mimetype := part_type part;
           size := N.of_nat (length (part_data part)); filename := name;
           file_path := p |},
     set_fs (insert p (part_data part)) (draw w)).
Proof. reflexivity. Qed.


(** Two parts stored one after the other get different paths, even under
    the same original name, and the second does not overwrite the first,
    as long as the two identifiers drawn differ and have the same length
    (as version 4 UUIDs do). *)
Theorem stores_do_not_collide (p1 p2 : Part) (w : World) :
  String.length (uuidv4 L (drawn w)) = String.length (uuidv4 L (S (drawn w))) ->
  uuidv4 L (drawn w) <> uuidv4 L (S (drawn w)) ->
  exists f1 w1 f2 w2,
    store L p1 w = (Ok f1, w1) /\ store L p2 w1 = (Ok f2, w2) /\
    file_path f1 <> file_path f2 /\
    fs w2 !! file_path f1 = Some (part_data p1) /\
    fs w2 !! file_path f2 = Some (part_data p2).
Proof.
  intros Hlen Hne. rewrite store_spec. cbv zeta. eexists _, _.
  eexists _, _. split; [reflexivity|]. rewrite store_spec. cbv zeta.
  split; [reflexivity|]. simpl.
  assert (Hpaths : path.join (tempDir L) (uuidv4 L (drawn w) ++ "-" ++ part_name p1)%string
                   <> path.join (tempDir L)
                        (uuidv4 L (S (drawn w)) ++ "-" ++ part_name p2)%string).
  { unfold path.join. intros Heq. apply string_app_inv_head in Heq.
    apply (string_app_inv_head "/") in Heq.
    apply string_app_same_length in Heq as [Hu _]; done. }
  split; [exact Hpaths|]. split.
  - rewrite lookup_insert_ne by (intros Heq; by apply Hpaths). apply lookup_insert_eq.
  - apply lookup_insert_eq.
Qed.
End Storage.


Lemma stores_do_not_collide_witness :
  let p1 := {| part_name := "a.pdf"; part_type := "application/pdf";
               part_data := Toy.two_pages |} in
  let p2 := {| part_name := "a.pdf"; part_type := "application/pdf";
               part_data := Toy.one_page |} in
  (String.length (uuidv4 Toy.libs (drawn Toy.world0))
   = String.length (uuidv4 Toy.libs (S (drawn Toy.world0))) /\
   uuidv4 Toy.libs (drawn Toy.world0) <> uuidv4 Toy.libs (S (drawn Toy.world0))) /\
  exists f1 w1 f2 w2,
    store Toy.libs p1 Toy.world0 = (Ok f1, w1) /\ store Toy.libs p2 w1 = (Ok f2, w2) /\
    file_path f1 <> file_path f2 /\
    fs w2 !! file_path f1 = Some (part_data p1) /\
    fs w2 !! file_path f2 = Some (part_data p2).
Proof.
  intros p1 p2.
  assert (H1 : String.length (uuidv4 Toy.libs (drawn Toy.world0))
               = String.length (uuidv4 Toy.libs (S (drawn Toy.world0))))
    by (vm_compute; reflexivity).
  assert (H2 : uuidv4 Toy.libs (drawn Toy.world0) <> uuidv4 Toy.libs (S (drawn Toy.world0)))
    by (vm_compute; discriminate).
  split; [by split|].
  exact (stores_do_not_collide Toy.libs p1 p2 Toy.world0 H1 H2).
Defined.

(** ** The descriptor, from the client to the server *)

Lemma string_app_cons (c : ascii) (a b : string) :
  (String c a ++ b)%string = String c (a ++ b)%string.
Proof. reflexivity. Qed.

Lemma string_app_nil_l (b : string) : ("" ++ b)%string = b.
Proof. reflexivity. Qed.

Lemma string_app_assoc (a b c : string) : ((a ++ b) ++ c = a ++ (b ++ c))%string.
Proof.
  induction a as [|x a IH]; [done|]. rewrite !string_app_cons. by rewrite IH.
Qed.

Lemma string_length_app (a b : string) :
  String.length (a ++ b)%string = String.length a + String.length b.
Proof.
  induction a as [|x a IH]; [done|]. rewrite string_app_cons. simpl. by rewrite IH.
Qed.

Section RoundTrip.

Local Abbreviation quote := (ascii_of_nat 34).

(** What follows the first element in the text of an array of strings. *)
Let tail_text : list string -> string :=
  fix go ids :=
    match ids with
    | [] => "]"
    | i :: rest => ("," ++ String quote (i ++ String quote (go rest)))%string
    end.

Lemma plain_char_spec c :
  plain_char c = true ->
  (nat_of_ascii c =? 34)%nat = false /\ (nat_of_ascii c <? 32)%nat = false /\
  (nat_of_ascii c =? 92)%nat = false.
Proof.
  unfold plain_char. intros H.
  apply andb_prop in H as [H H3]. apply andb_prop in H as [H1 H2].
  by rewrite negb_true_iff in H1, H2, H3.
Qed.

(** A string literal without escapes is read back as written. *)
Lemma parse_chars_plain s rest :
  plain s = true -> parse_chars (s ++ String quote rest) = Some (s, rest).
Proof.
  induction s as [|c s IH]; intros Hp.
  - reflexivity.
  - simpl in Hp. apply andb_prop in Hp as [Hc Hs].
    destruct (plain_char_spec c Hc) as (H1 & H2 & H3).
    change ((String c s ++ String quote rest)%string)
      with (String c (s ++ String quote rest)%string).
    cbn [parse_chars]. rewrite H1, H2, H3. by rewrite (IH Hs).
Qed.

Lemma parse_value_quote fuel text :
  parse_value (S fuel) (String quote text) =
    match parse_chars text with
    | Some (str, rest) => Some (JStr str, rest)
    | None => None
    end.
Proof. reflexivity. Qed.

Lemma parse_value_bracket fuel text :
  parse_value (S fuel) (String (ascii_of_nat 91) (String quote text)) =
    match parse_value fuel (String quote text) with
    | Some (v, rest2) =>
        match parse_elems (parse_value fuel) (String.length rest2) rest2 with
        | Some (vs, rest3) => Some (JArr (v :: vs), rest3)
        | None => None
        end
    | None => None
    end.
Proof. reflexivity. Qed.

Lemma parse_elems_comma pv n text :
  parse_elems pv (S n) (String (ascii_of_nat 44) text) =
    match pv text with
    | Some (v, rest) =>
        match parse_elems pv n rest with
        | Some (vs, rest') => Some (v :: vs, rest')
        | None => None
        end
    | None => None
    end.
Proof. reflexivity. Qed.

Lemma parse_value_string fuel s rest :
  plain s = true ->
  parse_value (S fuel) (String quote (s ++ String quote rest)) = Some (JStr s, rest).
Proof.
  intros Hp. by rewrite parse_value_quote, (parse_chars_plain s rest Hp).
Qed.

Lemma tail_text_length ids : length ids < String.length (tail_text ids).
Proof.
  induction ids as [|i ids IH]; simpl; [lia|].
  rewrite string_length_app. simpl. lia.
Qed.

Lemma parse_elems_strings fuel ids : forall n,
  Forall (fun i => plain i = true) ids ->
  length ids < n ->
  parse_elems (parse_value (S fuel)) n (tail_text ids) = Some (JStr <$> ids, "").
Proof.
  induction ids as [|i ids IH]; intros n Hp Hn.
  - destruct n as [|n]; [lia|]. reflexivity.
  - destruct n as [|n]; [simpl in Hn; lia|].
    inversion Hp as [|? ? Hi Hrest]; subst.
    change (tail_text (i :: ids))
      with (String (ascii_of_nat 44) (String quote (i ++ String quote (tail_text ids)))).
    rewrite parse_elems_comma, (parse_value_string fuel i (tail_text ids) Hi).
    rewrite (IH n Hrest) by (simpl in Hn; lia). reflexivity.
Qed.

Ltac string_norm :=
  repeat first [rewrite string_app_assoc | rewrite string_app_cons
               | rewrite string_app_nil_l].

Lemma concat_quoted_tail i ids :
  (String.concat ","
     (map (fun id => (String quote "" ++ id ++ String quote "")%string) (i :: ids))
   ++ "]")%string
  = String quote (i ++ String quote (tail_text ids))%string.
Proof.
  revert i. induction ids as [|j ids IH]; intros i.
  - change (tail_text []) with "]". cbn [map String.concat]. by string_norm.
  - change (tail_text (j :: ids))
      with ("," ++ String quote (j ++ String quote (tail_text ids)))%string.
    rewrite <- (IH j).
    change (String.concat ","
              (map (fun id => (String quote "" ++ id ++ String quote "")%string)
                 (i :: j :: ids)))
      with ((String quote "" ++ i ++ String quote "") ++ "," ++
            String.concat ","
              (map (fun id => (String quote "" ++ id ++ String quote "")%string)
                 (j :: ids)))%string.
    by string_norm.
Qed.

Lemma JSON_stringify_cons i ids :
  JSON_stringify (i :: ids)
  = String (ascii_of_nat 91) (String quote (i ++ String quote (tail_text ids))).
Proof.
  unfold JSON_stringify. cbv zeta. rewrite <- concat_quoted_tail. by string_norm.
Qed.

(** [JSON.parse] reads back what [JSON.stringify] wrote for a list of
    strings that need no escape. *)
Lemma JSON_parse_stringify ids :
  Forall (fun i => plain i = true) ids ->
  JSON_parse (JSON_stringify ids) = Ok (JArr (JStr <$> ids)).
Proof.
  intros Hp. destruct ids as [|i ids]; [reflexivity|].
  inversion Hp as [|? ? Hi Hrest]; subst.
  rewrite JSON_stringify_cons. unfold JSON_parse.
  change (String.length (String (ascii_of_nat 91)
                           (String quote (i ++ String quote (tail_text ids)))))
    with (S (S (String.length (i ++ String quote (tail_text ids))))).
  rewrite parse_value_bracket, (parse_value_string _ i (tail_text ids) Hi).
  rewrite (parse_elems_strings _ ids _ Hrest) by apply tail_text_length.
  reflexivity.
Qed.
End RoundTrip.


Lemma base36_plain_char c : base36_char c = true -> plain_char c = true.
Proof.
  unfold base36_char, plain_char. intros H.
  apply orb_prop in H as [H|H]; apply andb_prop in H as [H1 H2];
    apply Nat.leb_le in H1; apply Nat.leb_le in H2;
    rewrite !andb_true_iff, !negb_true_iff, !Nat.eqb_neq, Nat.ltb_ge; lia.
Qed.

Lemma base36_plain s : base36 s = true -> plain s = true.
Proof.
  induction s as [|c s IH]; simpl; [done|]. intros H.
  apply andb_prop in H as [Hc Hs]. by rewrite (base36_plain_char c Hc), (IH Hs).
Qed.

Lemma base36_get s : forall i c,
  base36 s = true -> String.get i s = Some c -> base36_char c = true.
Proof.
  induction s as [|d s IH]; intros i c Hb Hg; simpl in *; [done|].
  apply andb_prop in Hb as [Hd Hs].
  destruct i as [|i]; [by injection Hg as <- | by apply (IH i c)].
Qed.

Lemma startsWith_get s : forall p i c,
  startsWith s p = true -> String.get i p = Some c -> String.get i s = Some c.
Proof.
  induction s as [|d s IH]; intros [|e p] i c Hs Hg; simpl in *; try done.
  destruct (Ascii.eqb e d) eqn:He; [|done]. apply Ascii.eqb_eq in He as ->.
  destruct i as [|i]; [done | by apply (IH p i c)].
Qed.

Lemma string_get_app a b : forall i c,
  String.get i a = Some c -> String.get i (a ++ b)%string = Some c.
Proof.
  induction a as [|d a IH]; intros i c Hg; [done|].
  rewrite string_app_cons. simpl in *. destruct i as [|i]; [done | by apply IH].
Qed.

Lemma string_get_lt s : forall i, i < String.length s -> exists c, String.get i s = Some c.
Proof.
  induction s as [|d s IH]; intros i Hi; simpl in *; [lia|].
  destruct i as [|i]; [by eexists | apply IH; lia].
Qed.

Lemma base36_substring s : forall n,
  base36 s = true -> base36 (String.substring 0 n s) = true.
Proof.
  induction s as [|c s IH]; intros [|n] Hs; simpl in *; try done.
  apply andb_prop in Hs as [Hc Hs]. by rewrite Hc, IH.
Qed.

Lemma length_substring s : forall n,
  n <= String.length s -> String.length (String.substring 0 n s) = n.
Proof.
  induction s as [|c s IH]; intros [|n] Hn; simpl in *; try done; [lia|].
  rewrite IH; [done | lia].
Qed.

(** Of a text with nine digits after the point, [substr(2, 9)] keeps the
    first nine digits. *)
Lemma substr_of_nine_digit_text text :
  nine_digit_text text ->
  base36 (substr text 2 9) = true /\ String.length (substr text 2 9) = 9.
Proof.
  intros (digits & -> & Hb & Hlen). unfold substr.
  rewrite !string_app_cons, string_app_nil_l.
  change (String.substring 2 9 (String "0" (String "." digits)))
    with (String.substring 0 9 digits).
  split; [by apply base36_substring | by apply length_substring].
Qed.

(** Every identifier in a list the component can hold is nine digits of
    base 36. *)
Lemma reachable_ids (items : list Client.Item) :
  reachable items ->
  Forall (fun it => base36 (Client.id it) = true /\ String.length (Client.id it) = 9)
    items.
Proof.
  induction 1 as [|random36 acceptedFiles prev _ IH Hr|i prev _ IH
                  |active over prev items _ IH Hdrag].
  - constructor.
  - unfold Client.onDrop. apply Forall_app. split; [exact IH|].
    apply Forall_forall. intros it Hit.
    apply list_elem_of_lookup in Hit as [k Hk].
    rewrite list_lookup_imap in Hk.
    destruct (acceptedFiles !! k) as [f|] eqn:Hf; [|done].
    injection Hk as <-. simpl.
    apply substr_of_nine_digit_text, Hr. by apply lookup_lt_Some in Hf.
  - unfold Client.removeFile. rewrite Forall_forall in IH. apply Forall_forall.
    intros it Hit. apply list_elem_of_In, filter_In in Hit as [Hin _].
    apply IH. by apply list_elem_of_In.
  - unfold Client.handleDragEnd in Hdrag.
    destruct over as [o|]; [|done].
    destruct (negb (String.eqb active o)); [|by injection Hdrag as <-].
    injection Hdrag as Hmove. unfold Client.arrayMove in Hmove.
    destruct (prev !! _) as [x|] eqn:Hx; [|done]. injection Hmove as <-.
    assert (Hrest : Forall (fun it => base36 (Client.id it) = true /\
                                      String.length (Client.id it) = 9)
                      (take (Client.splice_start prev (Client.findIndex active prev)) prev ++
                       drop (S (Client.splice_start prev (Client.findIndex active prev))) prev)).
    { apply Forall_app. split; [by apply Forall_take | by apply Forall_drop]. }
    apply Forall_app. split; [by apply Forall_take|].
    constructor; [|by apply Forall_drop].
    rewrite Forall_forall in IH. apply IH. by eapply list_elem_of_lookup_2.
Qed.

Section ClientServer.
Context (L : Libs).

(** The form field the client builds is read by the server as the list
    of the client's identifiers. *)
Lemma order_field_parses (items : list Client.Item) :
  Forall (fun it => plain (Client.id it) = true) items ->
  JSON_parse (or_undefined (Some (Client.order_field items)) "[]")
  = Ok (JArr (JStr <$> (Client.id <$> items))).
Proof.
  intros Hp. unfold Client.order_field.
  assert (Htext : or_undefined (Some (JSON_stringify (Client.id <$> items))) "[]"
                  = JSON_stringify (Client.id <$> items)).
  { unfold JSON_stringify. cbv zeta. by rewrite string_app_cons. }
  rewrite Htext, JSON_parse_stringify; [done|].
  by apply Forall_fmap.
Qed.

Lemma order_field_resolves (items : list Client.Item) (files : list File) :
  Forall (fun it => plain (Client.id it) = true) items ->
  resolve_order L (Some (Client.order_field items)) files
  = allFiles L (JStr <$> (Client.id <$> items)) files.
Proof.
  intros Hp. unfold resolve_order. by rewrite order_field_parses.
Qed.

(** [handleMerge] refuses the empty list, with its message, and nothing
    else.  For any other list, whatever the user has arranged, it sends
    the files in list order and an [order] field that, built from
    identifiers that need no escape, the server parses back into exactly
    the list of those identifiers: the server resolves the descriptor of
    strings the client holds. *)
Theorem client_descriptor_reaches_server (items : list Client.Item) (files : list File) :
  Forall (fun it => plain (Client.id it) = true) items ->
  (items = [] ->
     Client.handleMerge items
     = inl (Client.ErrorStatus "Please add some files first")) /\
  (items <> [] ->
     exists order,
       Client.handleMerge items = inr (Client.file <$> items, order) /\
       JSON_parse (or_undefined (Some order) "[]")
       = Ok (JArr (JStr <$> (Client.id <$> items))) /\
       resolve_order L (Some order) files
       = allFiles L (JStr <$> (Client.id <$> items)) files).
Proof.
  intros Hp. split; [by intros ->|]. intros Hne.
  destruct items as [|it items]; [done|].
  exists (Client.order_field (it :: items)).
  split; [done|]. split; [by apply order_field_parses | by apply order_field_resolves].
Qed.

(** An identifier of nine base 36 digits is never a prefix of a storage
    name that starts with a UUID: the ninth character of the name is a
    dash. *)
Lemma client_id_names_nothing (i : string) (f : File) :
  (forall n, String.get 8 (uuidv4 L n) = Some "-"%char) ->
  (exists n name, filename f = (uuidv4 L n ++ "-" ++ name)%string) ->
  base36 i = true -> String.length i = 9 ->
  startsWith (filename f) i = false.
Proof.
  intros Hdash (n & name & Hname) Hb Hlen.
  apply not_true_is_false. intros Hs.
  destruct (string_get_lt i 8) as [c Hc]; [lia|].
  pose proof (startsWith_get _ _ _ _ Hs Hc) as Hf.
  rewrite Hname, (string_get_app _ _ 8 "-"%char (Hdash n)) in Hf.
  injection Hf as <-.
  by pose proof (base36_get i 8 _ Hb Hc).
Qed.

(** With this client the descriptor is inert, as long as the random
    numbers print with at least nine digits after the point.  Every list
    the component can then hold, built from the empty list by [onDrop],
    [removeFile] and [handleDragEnd], has identifiers of nine base 36
    digits; when the storage names start with UUIDs, no entry of the
    [order] field names a stored file, and the server keeps the files in
    the order it received them, which is the order in which [handleMerge]
    appended them to the form. *)
Theorem client_descriptor_is_inert (items : list Client.Item) (files : list File) :
  (forall n, String.get 8 (uuidv4 L n) = Some "-"%char) ->
  Forall (fun f => exists n name, filename f = (uuidv4 L n ++ "-" ++ name)%string) files ->
  reachable items ->
  Forall (fun it => base36 (Client.id it) = true /\ String.length (Client.id it) = 9)
    items /\
  resolve_order L (Some (Client.order_field items)) files = Ok files.
Proof.
  intros Hdash Hfiles Hreach.
  pose proof (reachable_ids items Hreach) as Hitems. split; [exact Hitems|].
  rewrite order_field_resolves.
  2: { eapply Forall_impl; [exact Hitems|]. intros it [Hb _]. by apply base36_plain. }
  apply unmatched_descriptor_is_receipt_order.
  intros j f Hj Hf.
  apply list_elem_of_fmap in Hj as (i & -> & Hi).
  apply list_elem_of_fmap in Hi as (it & -> & Hit).
  rewrite Forall_forall in Hitems. destruct (Hitems it Hit) as [Hb Hlen].
  rewrite Forall_forall in Hfiles.
  unfold named_by. simpl. f_equal.
  exact (client_id_names_nothing (Client.id it) f Hdash (Hfiles f Hf) Hb Hlen).
Qed.
End ClientServer.

Lemma client_descriptor_reaches_server_witness :
  let items := [ {| Client.id := "u2"; Client.file := {| part_name := "c.pdf";
                    part_type := "application/pdf"; part_data := Toy.one_page |} |};
                 {| Client.id := "u0"; Client.file := {| part_name := "a.pdf";
                    part_type := "application/pdf"; part_data := Toy.two_pages |} |} ] in
  Forall (fun it => plain (Client.id it) = true) items /\
  (items = [] ->
     Client.handleMerge items
     = inl (Client.ErrorStatus "Please add some files first")) /\
  (items <> [] ->
     exists order,
       Client.handleMerge items = inr (Client.file <$> items, order) /\
       JSON_parse (or_undefined (Some order) "[]")
       = Ok (JArr (JStr <$> (Client.id <$> items))) /\
       resolve_order Toy.libs (Some order) Toy.files
       = allFiles Toy.libs (JStr <$> (Client.id <$> items)) Toy.files).
Proof.
  intros items.
  assert (H : Forall (fun it => plain (Client.id it) = true) items).
  { repeat (constructor; [vm_compute; reflexivity|]). constructor. }
  split; [exact H|].
  exact (client_descriptor_reaches_server Toy.libs items Toy.files H).
Defined.

(** Two files dropped, then dragged into the other order: the list the
    component holds, and the storage names of the two uploads. *)
Lemma client_descriptor_is_inert_witness :
  let part n d := {| part_name := n; part_type := "application/pdf"; part_data := d |} in
  let random36 k := if Nat.even k then "0.k3j9x0q2m7h" else "0.e5f6a7b8e1" in
  let dropped :=
    Client.onDrop random36 [part "a.pdf" Toy.two_pages; part "c.pdf" Toy.one_page] [] in
  let items := [ {| Client.id := "e5f6a7b8e"; Client.file := part "c.pdf" Toy.one_page |};
                 {| Client.id := "k3j9x0q2m"; Client.file := part "a.pdf" Toy.two_pages |} ] in
  let stored u n := {| originalname := n; mimetype := "application/pdf"; size := 2;
                       filename := (Toy.uuid_like u ++ "-" ++ n)%string;
                       file_path := ("/srv/uploads/temp/" ++ Toy.uuid_like u ++ "-" ++ n)%string |} in
  let files := [stored 0 "c.pdf"; stored 1 "a.pdf"] in
  ((forall n, String.get 8 (uuidv4 Toy.libs_v4 n) = Some "-"%char) /\
   Forall (fun f => exists n name, filename f = (uuidv4 Toy.libs_v4 n ++ "-" ++ name)%string)
     files /\
   reachable items) /\
  Forall (fun it => base36 (Client.id it) = true /\ String.length (Client.id it) = 9)
    items /\
  resolve_order Toy.libs_v4 (Some (Client.order_field items)) files = Ok files.
Proof.
  intros part random36 dropped items stored files.
  assert (H1 : forall n, String.get 8 (uuidv4 Toy.libs_v4 n) = Some "-"%char).
  { intros n. simpl. unfold Toy.uuid_like. by destruct (Nat.even n). }
  assert (H2 : Forall (fun f => exists n name,
                         filename f = (uuidv4 Toy.libs_v4 n ++ "-" ++ name)%string) files).
  { constructor; [by exists 0, "c.pdf"|]. constructor; [by exists 1, "a.pdf"|]. constructor. }
  assert (H3 : reachable items).
  { apply (reachable_handleDragEnd "k3j9x0q2m" (Some "e5f6a7b8e") dropped items);
      [|vm_compute; reflexivity].
    apply reachable_onDrop; [constructor|].
    intros k Hk. destruct k as [|[|k]]; [| |simpl in Hk; lia].
    - exists "k3j9x0q2m7h".
      split; [reflexivity | split; [vm_compute; reflexivity | simpl; lia]].
    - exists "e5f6a7b8e1".
      split; [reflexivity | split; [vm_compute; reflexivity | simpl; lia]]. }
  split; [exact (conj H1 (conj H2 H3))|].
  exact (client_descriptor_is_inert Toy.libs_v4 items files H1 H2 H3).
Defined.

(** The second identifier above starts as the second storage name does,
    and still names nothing: it stops one character short of the dash. *)
Example nine_digits_meet_the_dash :
  startsWith "e5f6a7b8-0000-4000-8000-000000000000-a.pdf" "e5f6a7b8" = true /\
  startsWith "e5f6a7b8-0000-4000-8000-000000000000-a.pdf" "e5f6a7b8e" = false.
Proof. vm_compute. split; reflexivity. Qed.

(** The nine digits are needed.  A random number that prints with two
    digits gives an identifier of two characters, which can be the head
    of a storage name.  Here the identifier of the first file listed is
    the head of the name the second file is stored under: the server
    finds the second file for it and puts it first, against the order the
    client shows. *)
Example short_identifier_names_a_file :
  let part n d := {| part_name := n; part_type := "application/pdf"; part_data := d |} in
  let random36 k := if Nat.even k then "0.e5" else "0.k3" in
  let items :=
    Client.onDrop random36 [part "a.pdf" Toy.two_pages; part "c.pdf" Toy.one_page] [] in
  let stored u n := {| originalname := n; mimetype := "application/pdf"; size := 2;
                       filename := (Toy.uuid_like u ++ "-" ++ n)%string;
                       file_path := ("/srv/uploads/temp/" ++ Toy.uuid_like u ++ "-" ++ n)%string |} in
  Client.id <$> items = ["e5"; "k3"] /\
  part_name <$> (Client.file <$> items) = ["a.pdf"; "c.pdf"] /\
  resolve_order Toy.libs_v4 (Some (Client.order_field items))
    [stored 0 "a.pdf"; stored 1 "c.pdf"]
  = Ok [stored 1 "c.pdf"; stored 0 "a.pdf"].
Proof. repeat split; vm_compute; reflexivity. Qed.

(** ** The list of files in the client *)

Section ClientList.
Import Client.

Lemma findIndex_found (i : string) (items : list Item) (k : nat) (x : Item) :
  items !! k = Some x -> id x = i ->
  (forall j y, j < k -> items !! j = Some y -> id y <> i) ->
  findIndex i items = Z.of_nat k.
Proof.
  revert k. induction items as [|it items IH]; intros k Hk Hid Hfirst; [done|].
  destruct k as [|k]; simpl in *.
  - injection Hk as ->. by rewrite (proj2 (String.eqb_eq _ _) Hid).
  - assert (Hne : String.eqb (id it) i = false).
    { apply String.eqb_neq. apply (Hfirst 0 it); [lia | done]. }
    rewrite Hne. rewrite (IH k Hk Hid).
    + destruct (Z.of_nat k) eqn:Hz; lia.
    + intros j y Hj Hy. apply (Hfirst (S j) y); [lia | done].
Qed.

(** With identifiers that are all different, the index of an item is the
    index [findIndex] finds for its identifier. *)
Lemma findIndex_NoDup (items : list Item) (k : nat) (x : Item) :
  NoDup (id <$> items) -> items !! k = Some x ->
  findIndex (id x) items = Z.of_nat k.
Proof.
  intros Hnd Hk. apply (findIndex_found _ _ k x Hk eq_refl).
  intros j y Hj Hy Heq.
  assert (Hjk : j = k); [|lia].
  apply (NoDup_lookup (id <$> items) j k (id x)); [done| |].
  - by rewrite list_lookup_fmap, Hy, <- Heq.
  - by rewrite list_lookup_fmap, Hk.
Qed.

(** [removeFile] takes out the item clicked and nothing else: with
    identifiers that are all different, removing the identifier of the
    item at an index leaves the list without that index, the others in
    their order. *)
Theorem removeFile_removes_that_item (items : list Item) (k : nat) (x : Item) :
  NoDup (id <$> items) -> items !! k = Some x ->
  removeFile (id x) items = delete k items.
Proof.
  revert k. induction items as [|it items IH]; intros k Hnd Hk; [done|].
  rewrite fmap_cons in Hnd. apply NoDup_cons in Hnd as [Hnotin Hnd].
  unfold removeFile in *. destruct k as [|k]; simpl in *.
  - injection Hk as ->. rewrite String.eqb_refl. simpl.
    clear IH. induction items as [|y items IHi]; simpl; [done|].
    rewrite fmap_cons, not_elem_of_cons in Hnotin. destruct Hnotin as [Hne Hrest].
    rewrite fmap_cons in Hnd. apply NoDup_cons in Hnd as [_ Hnd].
    assert (Hy : String.eqb (id y) (id x) = false) by (apply String.eqb_neq; congruence).
    rewrite Hy. simpl. f_equal. by apply IHi.
  - assert (Hne : String.eqb (id it) (id x) = false).
    { apply String.eqb_neq. intros Heq. apply Hnotin. rewrite Heq.
      apply list_elem_of_fmap. exists x. split; [done|].
      by apply list_elem_of_lookup_2 with k. }
    rewrite Hne. simpl. f_equal. by apply IH.
Qed.

(** Dropping one item on another moves it there: with identifiers that
    are all different, the item dragged from index [i] and dropped on the
    item at index [j] ends at index [j]; the other items keep their
    order; nothing is lost or repeated. *)
Theorem handleDragEnd_moves_the_item (items : list Item) (i j : nat) (x y : Item) :
  NoDup (id <$> items) ->
  items !! i = Some x -> items !! j = Some y -> i <> j ->
  exists items',
    handleDragEnd (id x) (Some (id y)) items = Ok (Some items') /\
    items' !! j = Some x /\
    delete j items' = delete i items /\
    items' ≡ₚ items.
Proof.
  intros Hnd Hi Hj Hij.
  assert (Hids : id x <> id y).
  { intros Heq. apply Hij. apply (NoDup_lookup (id <$> items) i j (id x)); [done| |].
    - by rewrite list_lookup_fmap, Hi.
    - by rewrite list_lookup_fmap, Hj, Heq. }
  pose proof (lookup_lt_Some _ _ _ Hi) as Hilt.
  pose proof (lookup_lt_Some _ _ _ Hj) as Hjlt.
  unfold handleDragEnd. rewrite (proj2 (String.eqb_neq _ _) Hids). simpl negb. cbv iota.
  rewrite (findIndex_NoDup items i x Hnd Hi), (findIndex_NoDup items j y Hnd Hj).
  unfold arrayMove.
  assert (Htarget : (if (Z.of_nat j <? 0)%Z then (Z.of_nat (length items) + Z.of_nat j)%Z
                     else Z.of_nat j) = Z.of_nat j).
  { destruct (Z.ltb_spec (Z.of_nat j) 0); [lia | done]. }
  rewrite Htarget. clear Htarget.
  assert (Hstart : splice_start items (Z.of_nat i) = i).
  { unfold splice_start. destruct (Z.ltb_spec (Z.of_nat i) 0); lia. }
  rewrite Hstart, Hi. cbv zeta.
  rewrite <- delete_take_drop.
  assert (Hlen : length (delete i items) = length items - 1).
  { rewrite length_delete; [lia | by eexists]. }
  assert (Hstart' : splice_start (delete i items) (Z.of_nat j) = j).
  { unfold splice_start. destruct (Z.ltb_spec (Z.of_nat j) 0); lia. }
  rewrite Hstart'.
  assert (Htake : length (take j (delete i items)) = j).
  { rewrite length_take. lia. }
  eexists. split; [reflexivity|]. split; [|split].
  - rewrite lookup_app_r by lia. by rewrite Htake, Nat.sub_diag.
  - rewrite <- Htake at 1. rewrite delete_middle. apply take_drop.
  - rewrite <- Permutation_middle, take_drop.
    symmetry. by apply delete_Permutation.
Qed.
End ClientList.

Lemma removeFile_removes_that_item_witness :
  let item i n := {| Client.id := i; Client.file := {| part_name := n;
                     part_type := "application/pdf"; part_data := Toy.one_page |} |} in
  let items := [item "aaa" "a.pdf"; item "bbb" "b.pdf"; item "ccc" "c.pdf"] in
  (NoDup (Client.id <$> items) /\ items !! 1 = Some (item "bbb" "b.pdf")) /\
  Client.removeFile (Client.id (item "bbb" "b.pdf")) items = delete 1 items.
Proof.
  intros item items.
  assert (H1 : NoDup (Client.id <$> items)).
  { apply (bool_decide_unpack _). vm_compute. exact I. }
  assert (H2 : items !! 1 = Some (item "bbb" "b.pdf")) by reflexivity.
  split; [by split|].
  exact (removeFile_removes_that_item items 1 (item "bbb" "b.pdf") H1 H2).
Defined.

Lemma handleDragEnd_moves_the_item_witness :
  let item i n := {| Client.id := i; Client.file := {| part_name := n;
                     part_type := "application/pdf"; part_data := Toy.one_page |} |} in
  let items := [item "aaa" "a.pdf"; item "bbb" "b.pdf"; item "ccc" "c.pdf";
                item "ddd" "d.pdf"] in
  let x := item "aaa" "a.pdf" in
  let y := item "ccc" "c.pdf" in
  (NoDup (Client.id <$> items) /\ items !! 0 = Some x /\ items !! 2 = Some y /\ 0 <> 2) /\
  exists items',
    Client.handleDragEnd (Client.id x) (Some (Client.id y)) items = Ok (Some items') /\
    items' !! 2 = Some x /\
    delete 2 items' = delete 0 items /\
    items' ≡ₚ items.
Proof.
  intros item items x y.
  assert (H1 : NoDup (Client.id <$> items)).
  { apply (bool_decide_unpack _). vm_compute. exact I. }
  assert (H2 : items !! 0 = Some x) by reflexivity.
  assert (H3 : items !! 2 = Some y) by reflexivity.
  assert (H4 : 0 <> 2) by lia.
  split; [by repeat split|].
  exact (handleDragEnd_moves_the_item items 0 2 x y H1 H2 H3 H4).
Defined.

(** Dragging the first of four items onto the third, and the last onto
    the second. *)
Example drag_examples :
  let item i := {| Client.id := i; Client.file := {| part_name := "f.pdf";
                   part_type := "application/pdf"; part_data := Toy.one_page |} |} in
  let items := item <$> ["a"; "b"; "c"; "d"] in
  Client.handleDragEnd "a" (Some "c") items = Ok (Some (item <$> ["b"; "c"; "a"; "d"])) /\
  Client.handleDragEnd "d" (Some "b") items = Ok (Some (item <$> ["a"; "d"; "b"; "c"])) /\
  Client.handleDragEnd "b" (Some "b") items = Ok (Some items) /\
  Client.handleDragEnd "b" None items
  = Throw "Cannot read properties of null (reading 'id')".
Proof. vm_compute. repeat split; reflexivity. Qed.

(** ** Where the output is stored *)

(** The output never takes the path of a stored upload: uploads live in
    [uploads/temp], the output in [uploads]. *)
Lemma output_path_is_no_upload (L : Libs) (storageName uuid : string) :
  path.join (tempDir L) storageName
  <> path.join (uploadsDir L) ("merged-" ++ uuid ++ ".pdf")%string.
Proof.
  unfold tempDir, path.join. rewrite !string_app_assoc.
  intros Heq. apply string_app_inv_head in Heq. discriminate Heq.
Qed.


(** For a request whose files multer stored, that is, whose paths are in
    [uploads/temp], a download answer means that the file named in the
    answer is on disk and holds the serialized merge of the resolved
    sequence: the output cannot have been written over an upload, nor
    removed with the uploads. *)
Theorem download_of_stored_uploads
    (L : Libs) (req : Request) (files : list File) (w w' : World) (out name : string) :
  req_files req = Some files ->
  Forall (fun f => exists n, file_path f = path.join (tempDir L) n) files ->
  merge_handler L req w = (Ok (Download out name), w') ->
  exists ordered doc w1,
    resolve_order L (body_order req) files = Ok ordered /\
    merge L ordered w = (Ok doc, w1) /\
    fs w' !! out = Some (PDFDocument_save L doc).
Proof.
  intros Hfiles Hstored Hrun.
  destruct (download_world L req w w' out name Hrun)
    as (files' & ordered & doc & w1 & Hf & Hres & Hmerge & Hout & _ & _ & _ & _ & _
        & Hdisk & _).
  rewrite Hfiles in Hf. injection Hf as <-.
  exists ordered, doc, w1. split; [done|]. split; [done|].
  apply Hdisk. intros Hin.
  apply list_elem_of_fmap in Hin as (f & Hpath & Hf).
  assert (Hrecv : f ∈ files).
  { unfold resolve_order in Hres.
    destruct (JSON_parse _) as [v|]; [|done].
    destruct (array_of v) as [arr|]; [|done].
    by apply (allFiles_received L arr files ordered f). }
  rewrite Forall_forall in Hstored. destruct (Hstored f Hrecv) as [n Hn].
  rewrite Hout, Hn in Hpath. symmetry in Hpath.
  by apply output_path_is_no_upload in Hpath.
Qed.

Lemma download_of_stored_uploads_witness :
  let req := {| body_order := None; req_files := Some Toy.files |} in
  let w := Toy.world1 in
  let w' := snd (merge_handler Toy.libs req w) in
  let out := "/srv/uploads/merged-u3.pdf" in
  let name := "merged-invoice.pdf" in
  (req_files req = Some Toy.files /\
   Forall (fun f => exists n, file_path f = path.join (tempDir Toy.libs) n) Toy.files /\
   merge_handler Toy.libs req w = (Ok (Download out name), w')) /\
  exists ordered doc w1,
    resolve_order Toy.libs (body_order req) Toy.files = Ok ordered /\
    merge Toy.libs ordered w = (Ok doc, w1) /\
    fs w' !! out = Some (PDFDocument_save Toy.libs doc).
Proof.
  intros req w w' out name.
  assert (H1 : req_files req = Some Toy.files) by reflexivity.
  assert (H2 : Forall (fun f => exists n, file_path f = path.join (tempDir Toy.libs) n)
                 Toy.files).
  { unfold Toy.files.
    constructor; [by exists "u0-a.pdf"|]. constructor; [by exists "u1-b.png"|].
    constructor; [by exists "u2-c.pdf"|]. constructor. }
  assert (H3 : merge_handler Toy.libs req w = (Ok (Download out name), w')).
  { assert (Hfst : fst (merge_handler Toy.libs req w) = Ok (Download out name))
      by (vm_compute; reflexivity).
    subst w'. destruct (merge_handler Toy.libs req w) as [r wx].
    simpl in Hfst. by subst r. }
  split; [exact (conj H1 (conj H2 H3))|].
  exact (download_of_stored_uploads Toy.libs req Toy.files w w' out name H1 H2 H3).
Defined.


(** ** The extension of a stored upload *)

Section Extension.
Import path.

(** The scan state, with its indices moved [k] places to the right. *)
Let shift (k : nat) (st : ext_state) : ext_state :=
  {| startDot := Nat.add k <$> startDot st; startPart := startPart st;
     end_ := Nat.add k <$> end_ st; matchedSlash := matchedSlash st;
     preDotState := preDotState st; stopped := stopped st |}.

Lemma ext_scan_app a b : forall i st,
  ext_scan i (a ++ b) st = ext_scan i a (ext_scan (i + String.length a) b st).
Proof.
  induction a as [|c a IH]; intros i st.
  - rewrite string_app_nil_l. simpl. by rewrite Nat.add_0_r.
  - rewrite string_app_cons. simpl. rewrite IH. do 3 f_equal. lia.
Qed.

Lemma ext_step_shift k i c st :
  Ascii.eqb c SLASH = false ->
  ext_step (k + i) c (shift k st) = shift k (ext_step i c st).
Proof.
  intros Hc. unfold ext_step, shift. destruct st as [sd sp e ms pd stp]. simpl.
  rewrite Hc. destruct stp; [done|].
  destruct e as [e|], (Ascii.eqb c DOT), sd as [sd|]; simpl; try done;
    f_equal; try done; apply (f_equal Some); lia.
Qed.

Lemma ext_scan_shift k s : forall i st,
  no_char SLASH s = true ->
  ext_scan (k + i) s (shift k st) = shift k (ext_scan i s st).
Proof.
  induction s as [|c s IH]; intros i st Hs; [done|].
  simpl in Hs. apply andb_prop in Hs as [Hc Hs]. apply negb_true_iff in Hc.
  simpl. rewrite <- (ext_step_shift k i c _ Hc). f_equal.
  rewrite <- (IH (S i) st Hs). f_equal. lia.
Qed.

Lemma ext_scan_stopped s : forall i st, stopped st = true -> ext_scan i s st = st.
Proof.
  induction s as [|c s IH]; intros i st Hst; [done|].
  simpl. rewrite (IH _ _ Hst). unfold ext_step. by rewrite Hst.
Qed.

(** Once the end is marked, the scan is past the trailing slashes. *)
Let past_slashes (st : ext_state) : Prop :=
  (is_Some (end_ st) -> matchedSlash st = false) /\
  (is_Some (startDot st) -> is_Some (end_ st)).

Lemma ext_step_past i c st : past_slashes st -> past_slashes (ext_step i c st).
Proof.
  unfold past_slashes, ext_step. destruct st as [sd sp e ms pd stp]. simpl.
  intros [H1 H2]. destruct stp; [done|].
  destruct (Ascii.eqb c SLASH).
  - destruct ms; simpl; [done | by split].
  - destruct e as [e|], (Ascii.eqb c DOT), sd as [sd|]; simpl; split; eauto;
      intros; try done; try (by apply H1); try (by apply H2); by eexists.
Qed.

Lemma ext_scan_past s : forall i, past_slashes (ext_scan i s ext_init).
Proof.
  induction s as [|c s IH]; intros i.
  - split; simpl; intros [? ?]; done.
  - simpl. apply ext_step_past, IH.
Qed.

(** Characters that are neither dots nor slashes, met before a dot that
    is already found: they only record that the dot has a name before
    it. *)
Lemma ext_scan_plain s : forall i st d e,
  no_char SLASH s = true -> no_char DOT s = true -> s <> "" ->
  stopped st = false -> startDot st = Some d -> end_ st = Some e ->
  ext_scan i s st =
    {| startDot := startDot st; startPart := startPart st; end_ := end_ st;
       matchedSlash := matchedSlash st; preDotState := (-1); stopped := false |}.
Proof.
  induction s as [|c s IH]; intros i st d e Hs Hd Hne Hst Hsd He; [done|].
  simpl in Hs, Hd. apply andb_prop in Hs as [Hc1 Hs]. apply andb_prop in Hd as [Hc2 Hd].
  apply negb_true_iff in Hc1, Hc2. simpl.
  assert (Hstep : forall st0, stopped st0 = false -> startDot st0 = Some d ->
            end_ st0 = Some e ->
            ext_step i c st0 =
              {| startDot := startDot st0; startPart := startPart st0; end_ := end_ st0;
                 matchedSlash := matchedSlash st0; preDotState := (-1);
                 stopped := false |}).
  { intros st0 H1 H2 H3. unfold ext_step. rewrite H1, Hc1, H3. cbv zeta.
    by rewrite Hc2, H2, H3. }
  destruct s as [|c' s'].
  - simpl. by apply Hstep.
  - rewrite (IH (S i) st d e Hs Hd) by done. by rewrite Hstep.
Qed.

Lemma substring_shift pre s : forall a n,
  String.substring (String.length pre + a) n (pre ++ s) = String.substring a n s.
Proof. induction pre as [|c pre IH]; intros a n; [done|]. rewrite string_app_cons. apply IH. Qed.

Lemma no_char_app c a b : no_char c (a ++ b) = no_char c a && no_char c b.
Proof.
  induction a as [|d a IH]; [done|]. rewrite string_app_cons. simpl.
  by rewrite IH, andb_assoc.
Qed.

(** Behind a directory and a prefix without dots, a name keeps its
    extension, provided it has one. *)
Lemma extname_behind_prefix (dir prefix name : string) :
  no_char SLASH name = true ->
  no_char SLASH prefix = true -> no_char DOT prefix = true -> prefix <> "" ->
  extname name <> "" ->
  extname (join dir (prefix ++ name)) = extname name.
Proof.
  intros Hname Hp1 Hp2 Hpne Hext. unfold join.
  set (k := String.length dir + 1 + String.length prefix).
  unfold extname in *.
  destruct (ext_scan_past name 0) as [Hpast1 Hpast2].
  destruct (startDot (ext_scan 0 name ext_init)) as [d|] eqn:Hsd; [|done].
  destruct (end_ (ext_scan 0 name ext_init)) as [e|] eqn:He; [|done].
  assert (Hms : matchedSlash (ext_scan 0 name ext_init) = false) by (apply Hpast1; eauto).
  assert (Hnostop : stopped (ext_scan 0 name ext_init) = false).
  { clear -Hname. generalize 0. induction name as [|c s IH]; intros i; [done|].
    simpl in Hname. apply andb_prop in Hname as [Hc Hs]. apply negb_true_iff in Hc.
    simpl. specialize (IH Hs (S i)). unfold ext_step. rewrite IH, Hc.
    destruct (end_ _), (Ascii.eqb c DOT), (startDot _); simpl; try done.
    all: by destruct (end_ _). }
  assert (Hscan : ext_scan 0 (dir ++ "/" ++ prefix ++ name) ext_init =
            {| startDot := Some (k + d); startPart := String.length dir + 1;
               end_ := Some (k + e); matchedSlash := false; preDotState := (-1);
               stopped := true |}).
  { rewrite ext_scan_app. rewrite (string_app_cons "/" "" (prefix ++ name)).
    rewrite string_app_nil_l. simpl ext_scan at 2.
    rewrite ext_scan_app.
    replace (S (String.length dir) + String.length prefix) with (k + 0) by (unfold k; lia).
    change ext_init with (shift k ext_init) at 1.
    rewrite (ext_scan_shift k name 0 ext_init Hname).
    rewrite (ext_scan_plain prefix _ _ (k + d) (k + e) Hp1 Hp2 Hpne);
      [|by simpl|by simpl; rewrite Hsd|by simpl; rewrite He].
    simpl. rewrite Hsd, He, Hms. simpl.
    rewrite ext_scan_stopped by done. unfold ext_step. simpl.
    repeat f_equal; lia. }
  rewrite Hscan. simpl.
  destruct (preDotState (ext_scan 0 name ext_init) =? 0)%Z; [done|]. simpl in *.
  destruct ((preDotState (ext_scan 0 name ext_init) =? 1)%Z && (d =? e - 1)%nat
            && (d =? startPart (ext_scan 0 name ext_init) + 1)%nat); [done|].
  replace (k + e - (k + d)) with (e - d) by lia.
  change (dir ++ "/" ++ prefix ++ name)%string
    with (dir ++ ("/" ++ prefix ++ name))%string.
  rewrite <- (string_app_assoc "/" prefix name).
  rewrite <- (string_app_assoc dir ("/" ++ prefix) name).
  replace k with (String.length (dir ++ ("/" ++ prefix))%string).
  - apply substring_shift.
  - rewrite !string_length_app. simpl. unfold k. lia.
Qed.
End Extension.

(** An upload whose original name is a base name with an extension keeps
    that extension in its stored path, whenever the identifier drawn
    holds no dot and no slash.  The merge loop reads the extension of
    the original name and [imageToPdf] that of the stored path: under
    these conditions the two agree, and the codec follows the original
    name. *)
Theorem stored_path_keeps_extension (L : Libs) (part : Part) (w : World) :
  no_char path.SLASH (part_name part) = true ->
  no_char path.SLASH (uuidv4 L (drawn w)) = true ->
  no_char path.DOT (uuidv4 L (drawn w)) = true ->
  path.extname (part_name part) <> "" ->
  exists f w',
    store L part w = (Ok f, w') /\
    path.extname (file_path f) = path.extname (originalname f) /\
    codec_of (file_path f) =
      (if String.eqb (toLowerCase (path.extname (originalname f))) ".png"
       then PNG else JPG).
Proof.
  intros Hname Hu1 Hu2 Hext. rewrite store_spec. cbv zeta. eexists _, _.
  split; [reflexivity|]. simpl.
  assert (Heq : path.extname
                  (path.join (tempDir L) (uuidv4 L (drawn w) ++ "-" ++ part_name part)%string)
                = path.extname (part_name part)).
  { rewrite <- (string_app_assoc (uuidv4 L (drawn w)) "-" (part_name part)).
    apply extname_behind_prefix; try done.
    - rewrite no_char_app, Hu1. reflexivity.
    - rewrite no_char_app, Hu2. reflexivity.
    - destruct (uuidv4 L (drawn w)); discriminate. }
  split; [exact Heq|]. unfold codec_of. by rewrite Heq.
Qed.

Lemma stored_path_keeps_extension_witness :
  let part := {| part_name := "Photo.1.PNG"; part_type := "image/png";
                 part_data := Toy.png_200x100 |} in
  (no_char path.SLASH (part_name part) = true /\
   no_char path.SLASH (uuidv4 Toy.libs (drawn Toy.world0)) = true /\
   no_char path.DOT (uuidv4 Toy.libs (drawn Toy.world0)) = true /\
   path.extname (part_name part) <> "") /\
  exists f w',
    store Toy.libs part Toy.world0 = (Ok f, w') /\
    path.extname (file_path f) = path.extname (originalname f) /\
    codec_of (file_path f) =
      (if String.eqb (toLowerCase (path.extname (originalname f))) ".png"
       then PNG else JPG).
Proof.
  intros part.
  assert (H1 : no_char path.SLASH (part_name part) = true) by (vm_compute; reflexivity).
  assert (H2 : no_char path.SLASH (uuidv4 Toy.libs (drawn Toy.world0)) = true)
    by (vm_compute; reflexivity).
  assert (H3 : no_char path.DOT (uuidv4 Toy.libs (drawn Toy.world0)) = true)
    by (vm_compute; reflexivity).
  assert (H4 : path.extname (part_name part) <> "") by (vm_compute; discriminate).
  split; [exact (conj H1 (conj H2 (conj H3 H4)))|].
  exact (stored_path_keeps_extension Toy.libs part Toy.world0 H1 H2 H3 H4).
Defined.

(** The condition on the extension is needed: a name that is only a dot
    and letters has no extension of its own, and gains one once the
    identifier stands before it. *)
Example hidden_name_gains_an_extension :
  path.extname ".png" = "" /\
  path.extname (path.join "/srv/uploads/temp" "u0-.png") = ".png".
Proof. split; vm_compute; reflexivity. Qed.
